(** * ponder-artifacts: a shallow embedding of the metadata cache

    The development follows the layout of the package:
    - [Js]       the string and number built-ins the sources call;
    - [Uri]      src/uri.ts ([resolveUri], [fetchJson]);
    - the service closure ([isFresh], [detectStandard], [fetchTokenUri],
      [fetchToken], [updateToken], [fetchCollection], [updateCollection]);
    - the four route handlers.

    JavaScript strings are modelled by [string]; a character stands for the
    code unit with the same number.  Numbers that the code only compares or
    divides (timestamps, TTLs, token ids) are integers of [Z]. *)

From Stdlib Require Import ZArith Lia Bool List Ascii String QArith Qcanon.
From stdpp Require Import base gmap strings.

Set Warnings "-register-all".
#[local] Arguments String.append !_ _ / : simpl nomatch.

Local Open Scope string_scope.
Local Open Scope Z_scope.

(** ** JavaScript built-ins on strings *)

Module Js.

(** [s.startsWith(p)] *)
Fixpoint startsWith (s p : string) {struct p} : bool :=
  match p with
  | EmptyString => true
  | String c p' =>
      match s with
      | EmptyString => false
      | String d s' => if Ascii.eqb c d then startsWith s' p' else false
      end
  end.

(** [s.slice(n)] for [0 <= n] *)
Fixpoint slice (n : nat) (s : string) : string :=
  match n with
  | O => s
  | S n' => match s with
            | EmptyString => EmptyString
            | String _ s' => slice n' s'
            end
  end.

(** [s.replace(pat, repl)] with a string pattern: only the first
    occurrence of [pat] is replaced.  The replacement strings of this
    package (the empty string, a run of hex digits) contain no dollar sign,
    so the replacement is inserted literally. *)
Fixpoint replace (s pat repl : string) : string :=
  if startsWith s pat then repl ++ slice (String.length pat) s
  else match s with
       | EmptyString => EmptyString
       | String c s' => String c (replace s' pat repl)
       end.

(** [s.includes(pat)] *)
Fixpoint includes (s pat : string) : bool :=
  if startsWith s pat then true
  else match s with
       | EmptyString => false
       | String _ s' => includes s' pat
       end.

(** [s.split(sep)] for a one-character separator *)
Fixpoint split (sep : ascii) (s : string) : list string :=
  match s with
  | EmptyString => [EmptyString]
  | String c s' =>
      if Ascii.eqb c sep then EmptyString :: split sep s'
      else match split sep s' with
           | [] => [String c EmptyString]
           | x :: xs => String c x :: xs
           end
  end.

(** [String(a[i])]: reading past the end of an array gives [undefined],
    which the string built-ins then convert to the text "undefined". *)
Definition index_to_string (a : list string) (i : nat) : string :=
  nth i a "undefined".

Definition lower_char (c : ascii) : ascii :=
  let n := nat_of_ascii c in
  if ((65 <=? n) && (n <=? 90))%nat then ascii_of_nat (n + 32)
  else if ((192 <=? n) && (n <=? 222) && negb (n =? 215))%nat
       then ascii_of_nat (n + 32)
  else c.

(** [s.toLowerCase()] *)
Fixpoint toLowerCase (s : string) : string :=
  match s with
  | EmptyString => EmptyString
  | String c s' => String (lower_char c) (toLowerCase s')
  end.

Fixpoint repeat_char (c : ascii) (n : nat) : string :=
  match n with
  | O => EmptyString
  | S n' => String c (repeat_char c n')
  end.

(** [s.padStart(n, c)] for a one-character filler *)
Definition padStart (n : nat) (c : ascii) (s : string) : string :=
  repeat_char c (n - String.length s) ++ s.

(** *** [atob]: the forgiving base64 decoder of the HTML standard *)

Definition is_ascii_whitespace (c : ascii) : bool :=
  let n := nat_of_ascii c in
  ((n =? 9) || (n =? 10) || (n =? 12) || (n =? 13) || (n =? 32))%nat.

Fixpoint remove_whitespace (s : string) : list ascii :=
  match s with
  | EmptyString => []
  | String c s' =>
      if is_ascii_whitespace c then remove_whitespace s'
      else c :: remove_whitespace s'
  end.

Definition is_equals (c : ascii) : bool := Ascii.eqb c "=".

(** When the length is a multiple of four, one or two trailing [=] go. *)
Definition strip_padding (l : list ascii) : list ascii :=
  if (List.length l mod 4 =? 0)%nat then
    match rev l with
    | a :: b :: r =>
        if is_equals a then (if is_equals b then rev r else rev (b :: r))
        else l
    | [a] => if is_equals a then [] else l
    | [] => l
    end
  else l.

Definition base64_value (c : ascii) : option Z :=
  let n := Z.of_nat (nat_of_ascii c) in
  if (65 <=? n) && (n <=? 90) then Some (n - 65)
  else if (97 <=? n) && (n <=? 122) then Some (n - 71)
  else if (48 <=? n) && (n <=? 57) then Some (n + 4)
  else if n =? 43 then Some 62
  else if n =? 47 then Some 63
  else None.

Fixpoint base64_values (l : list ascii) : option (list Z) :=
  match l with
  | [] => Some []
  | c :: l' =>
      match base64_value c, base64_values l' with
      | Some v, Some vs => Some (v :: vs)
      | _, _ => None
      end
  end.

Definition byte_char (n : Z) : ascii := ascii_of_nat (Z.to_nat (n mod 256)).

Fixpoint decode_sextets (l : list Z) : string :=
  match l with
  | a :: b :: c :: d :: rest =>
      let n := a * 262144 + b * 4096 + c * 64 + d in
      String (byte_char (n / 65536))
        (String (byte_char (n / 256))
           (String (byte_char n) (decode_sextets rest)))
  | [a; b; c] =>
      let n := (a * 4096 + b * 64 + c) / 4 in
      String (byte_char (n / 256)) (String (byte_char n) EmptyString)
  | [a; b] =>
      let n := (a * 64 + b) / 16 in
      String (byte_char n) EmptyString
  | _ => EmptyString
  end.

(** [atob(data)]; [None] stands for the InvalidCharacterError it throws. *)
Definition atob (data : string) : option string :=
  let l := strip_padding (remove_whitespace data) in
  if (List.length l mod 4 =? 1)%nat then None
  else match base64_values l with
       | Some vs => Some (decode_sextets vs)
       | None => None
       end.

(** *** [BigInt(string)] and [bigint.toString(16)] *)

Definition is_js_whitespace (c : ascii) : bool :=
  let n := nat_of_ascii c in
  (((9 <=? n) && (n <=? 13)) || (n =? 32) || (n =? 160))%nat.

Fixpoint trimStart (s : string) : string :=
  match s with
  | EmptyString => EmptyString
  | String c s' => if is_js_whitespace c then trimStart s' else s
  end.

Fixpoint trimEnd (s : string) : string :=
  match s with
  | EmptyString => EmptyString
  | String c s' =>
      match trimEnd s' with
      | EmptyString => if is_js_whitespace c then EmptyString
                       else String c EmptyString
      | t => String c t
      end
  end.

Definition trim (s : string) : string := trimEnd (trimStart s).

Definition digit_value (c : ascii) : option Z :=
  let n := Z.of_nat (nat_of_ascii c) in
  if (48 <=? n) && (n <=? 57) then Some (n - 48)
  else if (97 <=? n) && (n <=? 102) then Some (n - 87)
  else if (65 <=? n) && (n <=? 70) then Some (n - 55)
  else None.

Fixpoint parse_digits_from (base acc : Z) (s : string) : option Z :=
  match s with
  | EmptyString => Some acc
  | String c s' =>
      match digit_value c with
      | Some d => if d <? base then parse_digits_from base (acc * base + d) s'
                  else None
      | None => None
      end
  end.

(** One or more digits in the given base. *)
Definition parse_digits (base : Z) (s : string) : option Z :=
  match s with
  | EmptyString => None
  | _ => parse_digits_from base 0 s
  end.

(** [BigInt(s)] on a string; [None] stands for the SyntaxError it throws.
    The text is trimmed; the empty text is zero; a decimal literal may
    carry a sign; a literal with the prefix 0x, 0o or 0b may not. *)
Definition BigInt (s : string) : option Z :=
  let t := trim s in
  if String.eqb t "" then Some 0
  else if startsWith t "+" then parse_digits 10 (slice 1 t)
  else if startsWith t "-" then Z.opp <$> parse_digits 10 (slice 1 t)
  else if startsWith t "0x" || startsWith t "0X"
       then parse_digits 16 (slice 2 t)
  else if startsWith t "0o" || startsWith t "0O"
       then parse_digits 8 (slice 2 t)
  else if startsWith t "0b" || startsWith t "0B"
       then parse_digits 2 (slice 2 t)
  else parse_digits 10 t.

Definition hex_digit (d : Z) : ascii :=
  if d <? 10 then ascii_of_nat (Z.to_nat (48 + d))
  else ascii_of_nat (Z.to_nat (87 + d)).

Fixpoint hex_loop (fuel : nat) (n : Z) (acc : string) : string :=
  match fuel with
  | O => acc
  | S fuel' =>
      if n =? 0 then acc
      else hex_loop fuel' (n / 16) (String (hex_digit (n mod 16)) acc)
  end.

Definition hex_of_positive (n : Z) : string :=
  hex_loop (S (Z.to_nat (Z.log2 n))) n EmptyString.

(** [n.toString(16)] on a bigint *)
Definition toString16 (n : Z) : string :=
  if n =? 0 then "0"
  else if n <? 0 then String "-" (hex_of_positive (- n))
  else hex_of_positive n.

End Js.

(** ** JSON values, as [JSON.parse] and [response.json()] produce them *)

Module Json.

Inductive value :=
| Null
| Bool (b : bool)
| Number (q : Qc)
| Str (s : string)
| Array (l : list value)
| Object (fields : list (string * value)).

(** Own property [k] of a parsed object. *)
Fixpoint lookup_field (k : string) (fields : list (string * value))
    : option value :=
  match fields with
  | [] => None
  | (k', v) :: rest => if String.eqb k k' then Some v else lookup_field k rest
  end.

(** [v ?? null]: [undefined] and [null] both give [null], modelled by
    [None]; any other value is kept. *)
Definition nullish (v : option value) : option value :=
  match v with
  | None => None
  | Some Null => None
  | Some v => Some v
  end.

End Json.

(** ** Effects: the store, the clock, the chain and the network

    An asynchronous function of the package becomes a computation [M A]:
    it takes the world, and gives either a value or a thrown error together
    with the world it leaves behind.  [await] is sequencing, [try]/[catch]
    and [promise.catch] are [catch]. *)

Inductive TokenStandard := erc721 | erc1155 | unknown.

Module Token.

(** The object [row] of [updateToken]: every column but the key. *)
Record Row := {
  row_tokenStandard : TokenStandard;
  row_tokenUri : option string;
  row_name : option Json.value;
  row_description : option Json.value;
  row_image : option Json.value;
  row_animationUrl : option Json.value;
  row_data : option Json.value;
  row_updatedAt : Z;
}.

Record ArtifactToken := {
  collection : string;
  tokenId : string;
  tokenStandard : TokenStandard;
  tokenUri : option string;
  name : option Json.value;
  description : option Json.value;
  image : option Json.value;
  animationUrl : option Json.value;
  data : option Json.value;
  updatedAt : Z;
}.

(** [.values({ collection: address, tokenId, ...row })] *)
Definition values (address tokenId : string) (row : Row) : ArtifactToken :=
  {| collection := address;
     tokenId := tokenId;
     tokenStandard := row_tokenStandard row;
     tokenUri := row_tokenUri row;
     name := row_name row;
     description := row_description row;
     image := row_image row;
     animationUrl := row_animationUrl row;
     data := row_data row;
     updatedAt := row_updatedAt row |}.

(** [ON CONFLICT (collection, token_id) DO UPDATE SET row]: the columns
    named in [row] are assigned, the others keep the stored value. *)
Definition conflict_update (stored : ArtifactToken) (row : Row)
    : ArtifactToken :=
  {| collection := collection stored;
     tokenId := tokenId stored;
     tokenStandard := row_tokenStandard row;
     tokenUri := row_tokenUri row;
     name := row_name row;
     description := row_description row;
     image := row_image row;
     animationUrl := row_animationUrl row;
     data := row_data row;
     updatedAt := row_updatedAt row |}.

End Token.

Module Collection.

(** The object [row] of [updateCollection]. *)
Record Row := {
  row_tokenStandard : TokenStandard;
  row_name : option Json.value;
  row_symbol : option Json.value;
  row_owner : option string;
  row_contractUri : option string;
  row_description : option Json.value;
  row_image : option Json.value;
  row_data : option Json.value;
  row_updatedAt : Z;
}.

Record ArtifactCollection := {
  collection : string;
  tokenStandard : TokenStandard;
  name : option Json.value;
  symbol : option Json.value;
  owner : option string;
  contractUri : option string;
  description : option Json.value;
  image : option Json.value;
  data : option Json.value;
  updatedAt : Z;
}.

Definition values (normalized : string) (row : Row) : ArtifactCollection :=
  {| collection := normalized;
     tokenStandard := row_tokenStandard row;
     name := row_name row;
     symbol := row_symbol row;
     owner := row_owner row;
     contractUri := row_contractUri row;
     description := row_description row;
     image := row_image row;
     data := row_data row;
     updatedAt := row_updatedAt row |}.

Definition conflict_update (stored : ArtifactCollection) (row : Row)
    : ArtifactCollection :=
  {| collection := collection stored;
     tokenStandard := row_tokenStandard row;
     name := row_name row;
     symbol := row_symbol row;
     owner := row_owner row;
     contractUri := row_contractUri row;
     description := row_description row;
     image := row_image row;
     data := row_data row;
     updatedAt := row_updatedAt row |}.

End Collection.

Inductive Error :=
| SyntaxError
| TypeError
| URIError
| InvalidCharacterError
| FetchFailed (resolved : string) (status : Z)
| ContractCallError
| StoreError.

(** What the outside world sees of a computation. *)
Inductive Event :=
| ReadContract (address functionName : string) (args : list string)
| HttpGet (url : string)
| Select (table : string) (key : list string)
| Upsert (table : string) (key : list string).

(** The database [db] holds the two tables, keyed by their primary keys.
    [clock] is what [Date.now()] returns.  [db_faults] tells, statement by
    statement, whether the next statements sent to the store fail.
    [trace] records the calls made to the chain, the network and the
    store, oldest first. *)
Record World := {
  artifact_token : gmap (string * string) Token.ArtifactToken;
  artifact_collection : gmap string Collection.ArtifactCollection;
  clock : Z;
  db_faults : list bool;
  trace : list Event;
}.

Inductive outcome (A : Type) :=
| Ok (a : A)
| Throw (e : Error).
Arguments Ok {A} a.
Arguments Throw {A} e.

Definition M (A : Type) : Type := World -> outcome A * World.

Definition ret {A} (a : A) : M A := fun w => (Ok a, w).

Definition throw {A} (e : Error) : M A := fun w => (Throw e, w).

Definition bind {A B} (m : M A) (k : A -> M B) : M B :=
  fun w => match m w with
           | (Ok a, w') => k a w'
           | (Throw e, w') => (Throw e, w')
           end.

Definition catch {A} (m : M A) (handler : Error -> M A) : M A :=
  fun w => match m w with
           | (Ok a, w') => (Ok a, w')
           | (Throw e, w') => handler e w'
           end.

Declare Scope js_scope.
Delimit Scope js_scope with js.
Notation "x <- m ;; k" := (bind m (fun x => k))
  (at level 100, m at next level, right associativity) : js_scope.
Notation "m ;; k" := (bind m (fun _ => k))
  (at level 100, right associativity) : js_scope.
Local Open Scope js_scope.

(** A built-in that returns [None] throws [e]. *)
Definition or_throw {A} (e : Error) (x : option A) : M A :=
  match x with
  | Some a => ret a
  | None => throw e
  end.

Definition emit (e : Event) : M unit :=
  fun w => (Ok tt,
            {| artifact_token := artifact_token w;
               artifact_collection := artifact_collection w;
               clock := clock w;
               db_faults := db_faults w;
               trace := trace w ++ [e] |}).

(** [Date.now()] *)
Definition Date_now : M Z := fun w => (Ok (clock w), w).

(** One statement reaches the store: it fails when the store says so. *)
Definition db_statement : M unit :=
  fun w =>
    let w' := {| artifact_token := artifact_token w;
                 artifact_collection := artifact_collection w;
                 clock := clock w;
                 db_faults := tail (db_faults w);
                 trace := trace w |} in
    match db_faults w with
    | true :: _ => (Throw StoreError, w')
    | _ => (Ok tt, w')
    end.

Definition set_artifact_token
    (t : gmap (string * string) Token.ArtifactToken) : M unit :=
  fun w => (Ok tt,
            {| artifact_token := t;
               artifact_collection := artifact_collection w;
               clock := clock w;
               db_faults := db_faults w;
               trace := trace w |}).

Definition set_artifact_collection
    (t : gmap string Collection.ArtifactCollection) : M unit :=
  fun w => (Ok tt,
            {| artifact_token := artifact_token w;
               artifact_collection := t;
               clock := clock w;
               db_faults := db_faults w;
               trace := trace w |}).

(** The JavaScript host: [JSON.parse] (whose objects hold each key once),
    [decodeURIComponent] and the network [fetch].  [None] is a thrown
    error or a rejected promise. *)
Record Response := {
  ok : bool;
  status : Z;
  json : option Json.value;
}.

Record Host := {
  JSON_parse : string -> option Json.value;
  decodeURIComponent : string -> option string;
  fetch : string -> option Response;
}.

(** The viem client, one entry per function of the ABIs the service
    declares; results have the ABI's return type, [None] is a rejected
    promise. *)
Record Client := {
  supportsInterface : string -> string -> option bool;
  uri : string -> Z -> option string;
  tokenURI : string -> Z -> option string;
  name : string -> option string;
  symbol : string -> option string;
  owner : string -> option string;
  contractURI : string -> option string;
}.

Record ArtifactPluginConfig := {
  client : Client;
  cacheTtl : option Z;
  ipfsGateway : option string;
  arweaveGateway : option string;
}.

(** ** src/uri.ts *)

Module Uri.

Definition DEFAULT_IPFS_GATEWAY : string := "https://ipfs.io/ipfs/".
Definition DEFAULT_ARWEAVE_GATEWAY : string := "https://arweave.net/".

Record ResolveUriOptions := {
  ipfsGateway : option string;
  arweaveGateway : option string;
}.

(** [x || d] on an optional string: absent and empty both fall to [d]. *)
Definition or_default (x : option string) (d : string) : string :=
  match x with
  | None => d
  | Some EmptyString => d
  | Some g => g
  end.

Definition ipfs_of (options : option ResolveUriOptions) : string :=
  or_default (o ← options; ipfsGateway o) DEFAULT_IPFS_GATEWAY.

Definition ar_of (options : option ResolveUriOptions) : string :=
  or_default (o ← options; arweaveGateway o) DEFAULT_ARWEAVE_GATEWAY.

Definition resolveUri (uri : option string)
    (options : option ResolveUriOptions) : string :=
  match uri with
  | None => ""
  | Some EmptyString => ""
  | Some uri =>
      let ipfs := ipfs_of options in
      let ar := ar_of options in
      if Js.startsWith uri "data:" then uri
      else if Js.startsWith uri "ipfs://" then ipfs ++ Js.replace uri "ipfs://" ""
      else if Js.startsWith uri "ar://" then ar ++ Js.replace uri "ar://" ""
      else if Js.startsWith uri "Qm" || Js.startsWith uri "baf" then ipfs ++ uri
      else uri
  end.

(** [await fetch(resolved)] *)
Definition do_fetch (host : Host) (resolved : string) : M Response :=
  emit (HttpGet resolved);;
  or_throw TypeError (fetch host resolved).

Definition fetchJson (host : Host) (uri : string)
    (options : option ResolveUriOptions) : M Json.value :=
  let resolved := resolveUri (Some uri) options in
  if Js.startsWith resolved "data:application/json;base64," then
    let base64Data := Js.index_to_string (Js.split "," resolved) 1 in
    decoded <- or_throw InvalidCharacterError (Js.atob base64Data);;
    or_throw SyntaxError (JSON_parse host decoded)
  else if Js.startsWith resolved "data:application/json" then
    jsonStr <- or_throw URIError
      (decodeURIComponent host
         (Js.index_to_string (Js.split "," resolved) 1));;
    or_throw SyntaxError (JSON_parse host jsonStr)
  else
    response <- do_fetch host resolved;;
    if negb (ok response) then throw (FetchFailed resolved (status response))
    else or_throw SyntaxError (json response).

End Uri.

(** ** The service: [createArtifactService(config)] *)

Definition DEFAULT_CACHE_TTL : Z := 30 * 24 * 60 * 60 * 1000.

Definition ERC721_INTERFACE_ID : string := "0x80ac58cd".
Definition ERC1155_INTERFACE_ID : string := "0xd9b67a26".

(** Reading a property of a parsed document: a TypeError on [null],
    [undefined] (here [None]) when the value has no such property. *)
Definition read_property (v : Json.value) (k : string)
    : M (option Json.value) :=
  match v with
  | Json.Null => throw TypeError
  | Json.Object fields => ret (Json.lookup_field k fields)
  | _ => ret None
  end.

(** [data?.k] *)
Definition optional_property (data : option Json.value) (k : string)
    : option Json.value :=
  match data with
  | Some (Json.Object fields) => Json.lookup_field k fields
  | _ => None
  end.

(** A document held in a nullable variable: JSON [null] is [null]. *)
Definition nullable (v : Json.value) : option Json.value :=
  Json.nullish (Some v).

(** [if (s)] on a nullable string *)
Definition truthy (s : option string) : bool :=
  match s with
  | None => false
  | Some EmptyString => false
  | Some _ => true
  end.

(** The locals that [updateToken] fills from the metadata document. *)
Record TokenMetadata := {
  md_name : option Json.value;
  md_description : option Json.value;
  md_image : option Json.value;
  md_animationUrl : option Json.value;
  md_data : option Json.value;
}.

Definition no_token_metadata : TokenMetadata :=
  {| md_name := None; md_description := None; md_image := None;
     md_animationUrl := None; md_data := None |}.

Record CollectionMetadata := {
  cmd_description : option Json.value;
  cmd_image : option Json.value;
  cmd_data : option Json.value;
}.

Definition no_collection_metadata : CollectionMetadata :=
  {| cmd_description := None; cmd_image := None; cmd_data := None |}.

Section Service.

Variable host : Host.
Variable config : ArtifactPluginConfig.

Definition uriOptions : option Uri.ResolveUriOptions :=
  Some {| Uri.ipfsGateway := ipfsGateway config;
          Uri.arweaveGateway := arweaveGateway config |}.

Definition isFresh (timestamp : option Z) : M bool :=
  match timestamp with
  | None => ret false
  | Some 0 => ret false
  | Some timestamp =>
      now <- Date_now;;
      ret (now - timestamp * 1000 <? default DEFAULT_CACHE_TTL (cacheTtl config))
  end.

(** [client.readContract({ functionName: "supportsInterface", ... })] *)
Definition read_supportsInterface (address interfaceId : string) : M bool :=
  emit (ReadContract address "supportsInterface" [interfaceId]);;
  or_throw ContractCallError
    (supportsInterface (client config) address interfaceId).

Definition detectStandard (address : string) : M TokenStandard :=
  isERC721 <- catch (read_supportsInterface address ERC721_INTERFACE_ID)
                (fun _ => ret false);;
  if isERC721 : bool then ret erc721
  else
    isERC1155 <- catch (read_supportsInterface address ERC1155_INTERFACE_ID)
                   (fun _ => ret false);;
    if isERC1155 : bool then ret erc1155
    else ret unknown.

Definition fetchTokenUri (address : string) (tokenId : Z)
    (standard : TokenStandard) : M string :=
  match standard with
  | erc1155 =>
      emit (ReadContract address "uri" [Js.toString16 tokenId]);;
      uri <- or_throw ContractCallError (uri (client config) address tokenId);;
      let tokenIdHex := Js.padStart 64 "0" (Js.toString16 tokenId) in
      ret (Js.replace uri "{id}" tokenIdHex)
  | _ =>
      emit (ReadContract address "tokenURI" [Js.toString16 tokenId]);;
      or_throw ContractCallError (tokenURI (client config) address tokenId)
  end.

Definition fetchToken (collection tokenId : string)
    : M (option Token.ArtifactToken) :=
  let key := (Js.toLowerCase collection, tokenId) in
  emit (Select "artifact_token" [key.1; key.2]);;
  db_statement;;
  fun w => (Ok (artifact_token w !! key), w).

(** The body of the [try] block of [updateToken].  After [data = metadata]
    only the property reads can throw, and they do so exactly when
    [metadata] is [null]; [data] then holds [null], its initial value, so
    a caught error leaves every local as it was initialised. *)
Definition token_metadata (tokenUri : string) : M TokenMetadata :=
  metadata <- Uri.fetchJson host tokenUri uriOptions;;
  let data := nullable metadata in
  name <- read_property metadata "name";;
  description <- read_property metadata "description";;
  image <- read_property metadata "image";;
  animationUrl <- read_property metadata "animation_url";;
  ret {| md_name := Json.nullish name;
         md_description := Json.nullish description;
         md_image := Json.nullish image;
         md_animationUrl := Json.nullish animationUrl;
         md_data := data |}.

Definition upsert_token (address tokenId : string) (row : Token.Row)
    : M unit :=
  emit (Upsert "artifact_token" [address; tokenId]);;
  db_statement;;
  fun w =>
    let table := artifact_token w in
    match table !! (address, tokenId) with
    | Some stored =>
        set_artifact_token
          (<[(address, tokenId) := Token.conflict_update stored row]> table) w
    | None =>
        set_artifact_token
          (<[(address, tokenId) := Token.values address tokenId row]> table) w
    end.

Definition updateToken (collection tokenId : string) : M unit :=
  let address := Js.toLowerCase collection in
  tokenIdBigInt <- or_throw SyntaxError (Js.BigInt tokenId);;
  tokenStandard <- detectStandard address;;
  tokenUri <- catch (uri <- fetchTokenUri address tokenIdBigInt tokenStandard;;
                     ret (Some uri))
                (fun _ => ret None);;
  md <- (if truthy tokenUri
         then catch (token_metadata (default "" tokenUri))
                (fun _ => ret no_token_metadata)
         else ret no_token_metadata);;
  now <- Date_now;;
  let row := {| Token.row_tokenStandard := tokenStandard;
                Token.row_tokenUri := tokenUri;
                Token.row_name := md_name md;
                Token.row_description := md_description md;
                Token.row_image := md_image md;
                Token.row_animationUrl := md_animationUrl md;
                Token.row_data := md_data md;
                Token.row_updatedAt := now / 1000 |} in
  upsert_token address tokenId row.

Definition fetchCollection (address : string)
    : M (option Collection.ArtifactCollection) :=
  let key := Js.toLowerCase address in
  emit (Select "artifact_collection" [key]);;
  db_statement;;
  fun w => (Ok (artifact_collection w !! key), w).

(** [client.readContract({ abi: COLLECTION_ABI, functionName })
      .catch(() => null)] *)
Definition read_collection (normalized functionName : string)
    (read : Client -> string -> option string) : M (option string) :=
  catch (emit (ReadContract normalized functionName []);;
         v <- or_throw ContractCallError (read (client config) normalized);;
         ret (Some v))
    (fun _ => ret None).

(** The body of the [try] block of [updateCollection]; see
    [token_metadata] for the locals after a caught error. *)
Definition collection_metadata (contractUri : string) : M CollectionMetadata :=
  metadata <- Uri.fetchJson host contractUri uriOptions;;
  let data := nullable metadata in
  description <- read_property metadata "description";;
  image <- read_property metadata "image";;
  ret {| cmd_description := Json.nullish description;
         cmd_image := Json.nullish image;
         cmd_data := data |}.

(** [onchain ?? (data?.k as string) ?? null] *)
Definition chain_or_document (onchain : option string)
    (data : option Json.value) (k : string) : option Json.value :=
  match onchain with
  | Some s => Some (Json.Str s)
  | None => Json.nullish (optional_property data k)
  end.

Definition upsert_collection (normalized : string) (row : Collection.Row)
    : M unit :=
  emit (Upsert "artifact_collection" [normalized]);;
  db_statement;;
  fun w =>
    let table := artifact_collection w in
    match table !! normalized with
    | Some stored =>
        set_artifact_collection
          (<[normalized := Collection.conflict_update stored row]> table) w
    | None =>
        set_artifact_collection
          (<[normalized := Collection.values normalized row]> table) w
    end.

(** The five promises of [Promise.all] start in the order of the array;
    each one settles to a value, so the sequence below gives the same
    results and the same calls as the concurrent run. *)
Definition updateCollection (address : string) : M unit :=
  let normalized := Js.toLowerCase address in
  name <- read_collection normalized "name" name;;
  symbol <- read_collection normalized "symbol" symbol;;
  owner <- read_collection normalized "owner" owner;;
  contractUri <- read_collection normalized "contractURI" contractURI;;
  tokenStandard <- detectStandard normalized;;
  md <- (if truthy contractUri
         then catch (collection_metadata (default "" contractUri))
                (fun _ => ret no_collection_metadata)
         else ret no_collection_metadata);;
  now <- Date_now;;
  let data := cmd_data md in
  let row := {| Collection.row_tokenStandard := tokenStandard;
                Collection.row_name := chain_or_document name data "name";
                Collection.row_symbol := chain_or_document symbol data "symbol";
                Collection.row_owner := Js.toLowerCase <$> owner;
                Collection.row_contractUri := contractUri;
                Collection.row_description := cmd_description md;
                Collection.row_image := cmd_image md;
                Collection.row_data := data;
                Collection.row_updatedAt := now / 1000 |} in
  upsert_collection normalized row.

End Service.

(** ** The routes: [createArtifactRoutes(config)] *)

Inductive Body :=
| TokenBody (token : option Token.ArtifactToken)
| CollectionBody (collection : option Collection.ArtifactCollection)
| ErrorBody (error : string).

Record HttpResponse := {
  http_status : Z;
  http_body : Body;
}.

(** [c.json(body)] and [c.json(body, status)] *)
Definition c_json (body : Body) : HttpResponse :=
  {| http_status := 200; http_body := body |}.

Definition c_json_status (body : Body) (status : Z) : HttpResponse :=
  {| http_status := status; http_body := body |}.

Section Routes.

Variable host : Host.
Variable config : ArtifactPluginConfig.

(** [cached && isFresh(cached.updatedAt)] *)
Definition token_is_fresh (cached : option Token.ArtifactToken) : M bool :=
  match cached with
  | Some c => isFresh config (Some (Token.updatedAt c))
  | None => ret false
  end.

Definition collection_is_fresh
    (cached : option Collection.ArtifactCollection) : M bool :=
  match cached with
  | Some c => isFresh config (Some (Collection.updatedAt c))
  | None => ret false
  end.

(** [app.get("/token/:collection/:tokenId")] *)
Definition get_token (collection tokenId : string) : M HttpResponse :=
  cached <- fetchToken collection tokenId;;
  fresh <- token_is_fresh cached;;
  if fresh : bool then ret (c_json (TokenBody cached))
  else
    catch (updateToken host config collection tokenId;;
           token <- fetchToken collection tokenId;;
           ret (c_json (TokenBody token)))
      (fun _ =>
         match cached with
         | Some _ => ret (c_json (TokenBody cached))
         | None =>
             ret (c_json_status
                    (ErrorBody "Failed to fetch token metadata") 500)
         end).

(** [app.post("/token/:collection/:tokenId")] *)
Definition post_token (collection tokenId : string) : M HttpResponse :=
  catch (updateToken host config collection tokenId;;
         token <- fetchToken collection tokenId;;
         ret (c_json (TokenBody token)))
    (fun _ =>
       cached <- fetchToken collection tokenId;;
       match cached with
       | Some _ => ret (c_json (TokenBody cached))
       | None =>
           ret (c_json_status
                  (ErrorBody "Failed to fetch token metadata") 500)
       end).

(** [app.get("/collection/:address")] *)
Definition get_collection (address : string) : M HttpResponse :=
  cached <- fetchCollection address;;
  fresh <- collection_is_fresh cached;;
  if fresh : bool then ret (c_json (CollectionBody cached))
  else
    catch (updateCollection host config address;;
           collection <- fetchCollection address;;
           ret (c_json (CollectionBody collection)))
      (fun _ =>
         match cached with
         | Some _ => ret (c_json (CollectionBody cached))
         | None =>
             ret (c_json_status
                    (ErrorBody "Failed to fetch collection metadata") 500)
         end).

(** [app.post("/collection/:address")] *)
Definition post_collection (address : string) : M HttpResponse :=
  catch (updateCollection host config address;;
         collection <- fetchCollection address;;
         ret (c_json (CollectionBody collection)))
    (fun _ =>
       cached <- fetchCollection address;;
       match cached with
       | Some _ => ret (c_json (CollectionBody cached))
       | None =>
           ret (c_json_status
                  (ErrorBody "Failed to fetch collection metadata") 500)
       end).

End Routes.

(** ** The store provisioning: the choice made by [createOffchainDb]

    [createOffchainDb] connects to PostgreSQL when it finds a database URL
    and opens an embedded PGlite directory otherwise; in both cases it runs
    the same statements that create the schema.  The connection itself is
    outside this development; the choice of the backend and of its
    argument is the function below. *)

Module Db.

Record Options := {
  databaseUrl : option string;
  dataDir : option string;
}.

(** [process.env] *)
Record ProcessEnv := {
  DATABASE_PRIVATE_URL : option string;
  DATABASE_URL : option string;
}.

Inductive Backend :=
| NodePostgres (connectionString : string)
| PGlite (dataDir : string).

(** [x ?? y] *)
Definition nullish_or (x y : option string) : option string :=
  match x with
  | Some v => Some v
  | None => y
  end.

Definition createOffchainDb_backend (options : option Options)
    (env : ProcessEnv) : Backend :=
  let databaseUrl :=
    nullish_or
      (nullish_or (o ← options; databaseUrl o) (DATABASE_PRIVATE_URL env))
      (DATABASE_URL env) in
  match databaseUrl with
  | Some (String c u) => NodePostgres (String c u)
  | _ => PGlite (default ".ponder/artifacts" (o ← options; dataDir o))
  end.

End Db.

(** ** Definitions used to state the properties *)

(** The world after some more calls were recorded. *)
Definition add_trace (events : list Event) (w : World) : World :=
  {| artifact_token := artifact_token w;
     artifact_collection := artifact_collection w;
     clock := clock w;
     db_faults := db_faults w;
     trace := trace w ++ events |}.

(** The effective time to live: [config.cacheTtl ?? DEFAULT_CACHE_TTL]. *)
Definition ttl_of (config : ArtifactPluginConfig) : Z :=
  default DEFAULT_CACHE_TTL (cacheTtl config).

(** A string that begins with none of the prefixes [resolveUri] knows. *)
Definition has_known_prefix (u : string) : bool :=
  Js.startsWith u "data:" || Js.startsWith u "ipfs://"
  || Js.startsWith u "ar://" || Js.startsWith u "Qm"
  || Js.startsWith u "baf".

(** A client whose every call is rejected, a host without network, and a
    world with empty tables: the fixtures of the examples. *)
Definition offline_client : Client :=
  {| supportsInterface := fun _ _ => None;
     uri := fun _ _ => None;
     tokenURI := fun _ _ => None;
     name := fun _ => None;
     symbol := fun _ => None;
     owner := fun _ => None;
     contractURI := fun _ => None |}.

Definition offline_host : Host :=
  {| JSON_parse := fun _ => None;
     decodeURIComponent := fun s => Some s;
     fetch := fun _ => None |}.

Definition default_config (c : Client) : ArtifactPluginConfig :=
  {| client := c; cacheTtl := None;
     ipfsGateway := None; arweaveGateway := None |}.

Definition empty_world (now : Z) (faults : list bool) : World :=
  {| artifact_token := ∅; artifact_collection := ∅;
     clock := now; db_faults := faults; trace := [] |}.

(** Lower-case hexadecimal digits only. *)
Definition is_lower_hex (c : ascii) : bool :=
  let n := nat_of_ascii c in
  (((48 <=? n) && (n <=? 57)) || ((97 <=? n) && (n <=? 102)))%nat.

Fixpoint all_lower_hex (s : string) : bool :=
  match s with
  | EmptyString => true
  | String c s' => is_lower_hex c && all_lower_hex s'
  end.

(** [settles m r events]: whatever the world, [m] ends with [r] and
    does nothing but make the calls [events]: the store, the clock and the
    fault schedule are neither read nor changed. *)
Definition settles {A} (m : M A) (r : outcome A) (events : list Event)
    : Prop :=
  forall w, m w = (r, add_trace events w).

(** A computation made of chain and network calls only. *)
Definition io {A} (m : M A) : Prop :=
  exists r events, settles m r events.

(** The standard, as the specification determines it: ERC721 when the
    ERC721 probe affirms, otherwise ERC1155 when the ERC1155 probe affirms,
    otherwise unknown; a failed probe counts as a negative answer. *)
Definition probe_affirms (c : Client) (address interfaceId : string) : bool :=
  match supportsInterface c address interfaceId with
  | Some true => true
  | _ => false
  end.

Definition probe_standard (c : Client) (address : string) : TokenStandard :=
  if probe_affirms c address ERC721_INTERFACE_ID then erc721
  else if probe_affirms c address ERC1155_INTERFACE_ID then erc1155
  else unknown.

(** The probes made, in order: the second one only after a first one that
    did not affirm. *)
Definition probe_events (c : Client) (address : string) : list Event :=
  ReadContract address "supportsInterface" [ERC721_INTERFACE_ID]
  :: (if probe_affirms c address ERC721_INTERFACE_ID then []
      else [ReadContract address "supportsInterface" [ERC1155_INTERFACE_ID]]).

(** A decimal string: one or more of the digits 0 to 9. *)
Definition is_decimal_digit (c : ascii) : bool :=
  let n := nat_of_ascii c in ((48 <=? n) && (n <=? 57))%nat.

Fixpoint all_decimal (s : string) : bool :=
  match s with
  | EmptyString => true
  | String c s' => is_decimal_digit c && all_decimal s'
  end.

Definition is_decimal (s : string) : bool :=
  negb (String.eqb s "") && all_decimal s.

(** The world once a statement was sent to the store. *)
Definition statement_sent (e : Event) (w : World) : World :=
  {| artifact_token := artifact_token w;
     artifact_collection := artifact_collection w;
     clock := clock w;
     db_faults := tail (db_faults w);
     trace := trace w ++ [e] |}.

(** Does the store fail the next statement? *)
Definition store_fails (w : World) : bool :=
  match db_faults w with
  | true :: _ => true
  | _ => false
  end.

Definition with_artifact_token
    (t : gmap (string * string) Token.ArtifactToken) (w : World) : World :=
  {| artifact_token := t;
     artifact_collection := artifact_collection w;
     clock := clock w;
     db_faults := db_faults w;
     trace := trace w |}.

Definition with_artifact_collection
    (t : gmap string Collection.ArtifactCollection) (w : World) : World :=
  {| artifact_token := artifact_token w;
     artifact_collection := t;
     clock := clock w;
     db_faults := db_faults w;
     trace := trace w |}.

(** The row a token key holds after an upsert of [row]. *)
Definition upserted_token (address tokenId : string) (row : Token.Row)
    (table : gmap (string * string) Token.ArtifactToken)
    : Token.ArtifactToken :=
  match table !! (address, tokenId) with
  | Some stored => Token.conflict_update stored row
  | None => Token.values address tokenId row
  end.

Definition upserted_collection (normalized : string) (row : Collection.Row)
    (table : gmap string Collection.ArtifactCollection)
    : Collection.ArtifactCollection :=
  match table !! normalized with
  | Some stored => Collection.conflict_update stored row
  | None => Collection.values normalized row
  end.

(** The object [row] of [updateToken], from what the pass resolved. *)
Definition token_row (standard : TokenStandard) (tokenUri : option string)
    (md : TokenMetadata) (now : Z) : Token.Row :=
  {| Token.row_tokenStandard := standard;
     Token.row_tokenUri := tokenUri;
     Token.row_name := md_name md;
     Token.row_description := md_description md;
     Token.row_image := md_image md;
     Token.row_animationUrl := md_animationUrl md;
     Token.row_data := md_data md;
     Token.row_updatedAt := now / 1000 |}.

(** The object [row] of [updateCollection]. *)
Definition collection_row (standard : TokenStandard)
    (name symbol owner contractUri : option string)
    (md : CollectionMetadata) (now : Z) : Collection.Row :=
  {| Collection.row_tokenStandard := standard;
     Collection.row_name := chain_or_document name (cmd_data md) "name";
     Collection.row_symbol := chain_or_document symbol (cmd_data md) "symbol";
     Collection.row_owner := Js.toLowerCase <$> owner;
     Collection.row_contractUri := contractUri;
     Collection.row_description := cmd_description md;
     Collection.row_image := cmd_image md;
     Collection.row_data := cmd_data md;
     Collection.row_updatedAt := now / 1000 |}.

(** What [updateToken] keeps of the URI read and of the document. *)
Definition kept_uri (r : outcome string) : option string :=
  match r with
  | Ok u => Some u
  | Throw _ => None
  end.

Definition kept_metadata (tokenUri : option string)
    (r : outcome TokenMetadata) : TokenMetadata :=
  if truthy tokenUri
  then match r with Ok md => md | Throw _ => no_token_metadata end
  else no_token_metadata.

(** The URI read that [fetchTokenUri] makes for a standard. *)
Definition uri_read (c : Client) (address : string) (tokenId : Z)
    (standard : TokenStandard) : option string :=
  match standard with
  | erc1155 => uri c address tokenId
  | _ => tokenURI c address tokenId
  end.

(** A token record without any field of the metadata document. *)
Definition metadata_absent (r : Token.ArtifactToken) : Prop :=
  Token.name r = None /\ Token.description r = None
  /\ Token.image r = None /\ Token.animationUrl r = None
  /\ Token.data r = None.

(** A contract whose ERC721 probe is rejected, whose ERC1155 probe
    affirms and whose [uri] returns a template: a fixture. *)
Definition erc1155_client (template : string) : Client :=
  {| supportsInterface := fun _ interfaceId =>
       if String.eqb interfaceId ERC1155_INTERFACE_ID then Some true
       else None;
     uri := fun _ _ => Some template;
     tokenURI := fun _ _ => None;
     name := fun _ => None;
     symbol := fun _ => None;
     owner := fun _ => None;
     contractURI := fun _ => None |}.

(** A collection whose on-chain name is "Chain", whose symbol read is
    rejected and whose contract document, served over HTTP, names it "Doc"
    with the symbol "DOC": a fixture. *)
Definition named_client : Client :=
  {| supportsInterface := fun _ _ => Some false;
     uri := fun _ _ => None;
     tokenURI := fun _ _ => None;
     name := fun _ => Some "Chain";
     symbol := fun _ => None;
     owner := fun _ => Some "0xDEF";
     contractURI := fun _ => Some "https://example.com/c.json" |}.

Definition document_host : Host :=
  {| JSON_parse := fun _ => None;
     decodeURIComponent := fun s => Some s;
     fetch := fun _ =>
       Some {| ok := true; status := 200;
               json := Some (Json.Object [("name", Json.Str "Doc");
                                          ("symbol", Json.Str "DOC")]) |} |}.

(** The same row, written at another time. *)
Definition token_row_at (seconds : Z) (row : Token.Row) : Token.Row :=
  {| Token.row_tokenStandard := Token.row_tokenStandard row;
     Token.row_tokenUri := Token.row_tokenUri row;
     Token.row_name := Token.row_name row;
     Token.row_description := Token.row_description row;
     Token.row_image := Token.row_image row;
     Token.row_animationUrl := Token.row_animationUrl row;
     Token.row_data := Token.row_data row;
     Token.row_updatedAt := seconds |}.

Definition collection_row_at (seconds : Z) (row : Collection.Row)
    : Collection.Row :=
  {| Collection.row_tokenStandard := Collection.row_tokenStandard row;
     Collection.row_name := Collection.row_name row;
     Collection.row_symbol := Collection.row_symbol row;
     Collection.row_owner := Collection.row_owner row;
     Collection.row_contractUri := Collection.row_contractUri row;
     Collection.row_description := Collection.row_description row;
     Collection.row_image := Collection.row_image row;
     Collection.row_data := Collection.row_data row;
     Collection.row_updatedAt := seconds |}.

(** What a successful token refresh leaves in the store, in the words of
    the specification: the key holds a record [r] whose non-key fields are
    those of [row]; the identity fields of a record that was there are
    kept; the time of the write is the clock in seconds; no other key and
    no other table changes. *)
Definition token_written (key : string * string) (row : Token.Row)
    (w w' : World) : Prop :=
  exists r,
    artifact_token w' !! key = Some r
    /\ r = Token.values (Token.collection r) (Token.tokenId r) row
    /\ (forall stored, artifact_token w !! key = Some stored ->
        Token.collection r = Token.collection stored
        /\ Token.tokenId r = Token.tokenId stored)
    /\ (artifact_token w !! key = None ->
        Token.collection r = key.1 /\ Token.tokenId r = key.2)
    /\ Token.updatedAt r = clock w / 1000
    /\ (forall k, k <> key -> artifact_token w' !! k = artifact_token w !! k)
    /\ artifact_collection w' = artifact_collection w.

Definition collection_written (key : string) (row : Collection.Row)
    (w w' : World) : Prop :=
  exists r,
    artifact_collection w' !! key = Some r
    /\ r = Collection.values (Collection.collection r) row
    /\ (forall stored, artifact_collection w !! key = Some stored ->
        Collection.collection r = Collection.collection stored)
    /\ (artifact_collection w !! key = None -> Collection.collection r = key)
    /\ Collection.updatedAt r = clock w / 1000
    /\ (forall k, k <> key ->
        artifact_collection w' !! k = artifact_collection w !! k)
    /\ artifact_token w' = artifact_token w.

(** The decision of a read request, in the words of the specification.
    [read] looks the key up, [is_fresh] judges the record found, [refresh]
    updates the key, [respond] answers with a record and [failure] is the
    answer with status 500.
    - A record that is there and fresh is the answer, and the handler ends
      in the world the look-up left: nothing else was called.
    - Otherwise the refresh runs in that world.  When it throws, the answer
      is the record found before, if there was one, and the failure if
      there was none.  When it returns, the key is read again and that is
      the answer; should this second look-up throw, the handler falls back
      in the same way.
    - The failure is answered only when the first look-up found nothing. *)
Definition read_with_fallback {R} (read : M (option R))
    (is_fresh : option R -> M bool) (refresh : M unit)
    (respond : option R -> HttpResponse) (failure : HttpResponse)
    (handler : M HttpResponse) : Prop :=
  forall w cached w1,
    read w = (Ok cached, w1) ->
    let fallback :=
      match cached with
      | Some _ => respond cached
      | None => failure
      end in
    (forall c, cached = Some c ->
       is_fresh cached w1 = (Ok true, w1) ->
       handler w = (Ok (respond cached), w1))
    /\ (is_fresh cached w1 = (Ok false, w1) ->
        forall r w2,
          refresh w1 = (r, w2) ->
          match r with
          | Throw _ => handler w = (Ok fallback, w2)
          | Ok _ =>
              forall again w3,
                read w2 = (again, w3) ->
                handler w
                = (Ok (match again with
                       | Ok fetched => respond fetched
                       | Throw _ => fallback
                       end), w3)
          end)
    /\ (forall w', handler w = (Ok failure, w') -> cached = None).

(** The decision of a forced refresh.  The refresh runs first.  When it
    returns and the key can be read, the record read is the answer.  When
    the refresh throws (or the look-up after it does), the key is looked
    up: a record found is the answer, and the failure is answered when
    there is none.  The failure is answered only after such a look-up
    found nothing. *)
Definition refresh_with_fallback {R} (read : M (option R))
    (refresh : M unit) (respond : option R -> HttpResponse)
    (failure : HttpResponse) (handler : M HttpResponse) : Prop :=
  forall w r w1,
    refresh w = (r, w1) ->
    let fallback (cached : option R) :=
      match cached with
      | Some _ => respond cached
      | None => failure
      end in
    match r with
    | Throw _ =>
        (forall cached w2,
           read w1 = (Ok cached, w2) ->
           handler w = (Ok (fallback cached), w2))
        /\ (forall w', handler w = (Ok failure, w') ->
            read w1 = (Ok None, w'))
    | Ok _ =>
        (forall fetched w2,
           read w1 = (Ok fetched, w2) ->
           handler w = (Ok (respond fetched), w2))
        /\ (forall w', handler w = (Ok failure, w') ->
            exists e w2, read w1 = (Throw e, w2)
                         /\ read w2 = (Ok None, w'))
    end.

Definition token_failure : HttpResponse :=
  c_json_status (ErrorBody "Failed to fetch token metadata") 500.

Definition collection_failure : HttpResponse :=
  c_json_status (ErrorBody "Failed to fetch collection metadata") 500.

(** A record written thirty-one days before the clock of [stale_world]. *)
Definition stale_token : Token.ArtifactToken :=
  {| Token.collection := "0xabc"; Token.tokenId := "42";
     Token.tokenStandard := erc721;
     Token.tokenUri := Some "ipfs://abc";
     Token.name := Some (Json.Str "Old"); Token.description := None;
     Token.image := None; Token.animationUrl := None;
     Token.data := None; Token.updatedAt := 1697321600 |}.

Definition stale_world (faults : list bool) : World :=
  {| artifact_token := {[ ("0xabc", "42") := stale_token ]};
     artifact_collection := ∅;
     clock := 1700000000000;
     db_faults := faults;
     trace := [] |}.

(** The text of the JSON document with the one member a = 1 (the
    character 34 is the double quote). *)
Definition document_a1 : string :=
  String "{" (String "034" (String "a" (String "034" ":1}"))).

(** A configuration whose records live longer than the time elapsed
    since the epoch. *)
Definition long_lived_config : ArtifactPluginConfig :=
  {| client := offline_client; cacheTtl := Some 2000000000000;
     ipfsGateway := None; arweaveGateway := None |}.

(** Each stored record carries the key it is stored under: the tables are
    keyed by their primary keys, so that the select of [fetchToken] and of
    [fetchCollection], which compares the key columns, is a look-up. *)
Definition store_consistent (w : World) : Prop :=
  (forall k r, artifact_token w !! k = Some r ->
     (Token.collection r, Token.tokenId r) = k)
  /\ (forall k r, artifact_collection w !! k = Some r ->
        Collection.collection r = k).

(** The function of the contract that [fetchTokenUri] calls. *)
Definition uri_function (standard : TokenStandard) : string :=
  match standard with
  | erc1155 => "uri"
  | _ => "tokenURI"
  end.

(** What [fetchTokenUri] settles to. *)
Definition token_uri_result (c : Client) (address : string) (tokenId : Z)
    (standard : TokenStandard) : outcome string :=
  match uri_read c address tokenId standard with
  | Some u =>
      Ok (match standard with
          | erc1155 =>
              Js.replace u "{id}" (Js.padStart 64 "0" (Js.toString16 tokenId))
          | _ => u
          end)
  | None => Throw ContractCallError
  end.

(** The locals of [updateToken] after a document was fetched. *)
Definition document_fields (doc : Json.value) : TokenMetadata :=
  {| md_name := Json.nullish (optional_property (Some doc) "name");
     md_description := Json.nullish (optional_property (Some doc) "description");
     md_image := Json.nullish (optional_property (Some doc) "image");
     md_animationUrl :=
       Json.nullish (optional_property (Some doc) "animation_url");
     md_data := Some doc |}.

(** What the [try] block of [updateToken] settles to, from what
    [fetchJson] settled to. *)
Definition token_metadata_result (r : outcome Json.value)
    : outcome TokenMetadata :=
  match r with
  | Ok Json.Null => Throw TypeError
  | Ok doc => Ok (document_fields doc)
  | Throw e => Throw e
  end.

(** Is an event a request to the network, a call to the chain, a write? *)
Definition is_http (e : Event) : bool :=
  match e with
  | HttpGet _ => true
  | _ => false
  end.

Definition is_chain_call (e : Event) : bool :=
  match e with
  | ReadContract _ _ _ => true
  | _ => false
  end.

(** An ERC721 contract whose [tokenURI] is [u], and a host that serves
    the document [doc] at every address: fixtures. *)
Definition erc721_client (u : string) : Client :=
  {| supportsInterface := fun _ interfaceId =>
       Some (String.eqb interfaceId ERC721_INTERFACE_ID);
     uri := fun _ _ => None;
     tokenURI := fun _ _ => Some u;
     name := fun _ => None;
     symbol := fun _ => None;
     owner := fun _ => None;
     contractURI := fun _ => None |}.

Definition serving_host (doc : Json.value) : Host :=
  {| JSON_parse := fun _ => None;
     decodeURIComponent := fun s => Some s;
     fetch := fun _ => Some {| ok := true; status := 200; json := Some doc |} |}.

Definition sample_document : Json.value :=
  Json.Object [("name", Json.Str "One"); ("image", Json.Str "ipfs://img");
               ("description", Json.Null)].

(** The requests [fetchJson] makes: none for an inline JSON document,
    one for the resolved form of anything else. *)
Definition fetchJson_events (u : string)
    (options : option Uri.ResolveUriOptions) : list Event :=
  let resolved := Uri.resolveUri (Some u) options in
  if Js.startsWith resolved "data:application/json" then []
  else [HttpGet resolved].

(** A computation that keeps a property of the world, however it ends. *)
Definition preserves {A} (P : World -> Prop) (m : M A) : Prop :=
  forall w r w', P w -> m w = (r, w') -> P w'.

(** A collection with an owner written in upper case and without
    contract URI: a fixture. *)
Definition owned_client : Client :=
  {| supportsInterface := fun _ _ => None;
     uri := fun _ _ => None;
     tokenURI := fun _ _ => None;
     name := fun _ => Some "Chain";
     symbol := fun _ => None;
     owner := fun _ => Some "0xDEF";
     contractURI := fun _ => None |}.

(** ** Base64 encoding, to state what [atob] decodes

    The standard encoding of a string of bytes: three bytes give four
    digits of six bits; one or two bytes left over give two or three
    digits, followed by two or one [=]. *)
Definition base64_char (v : Z) : ascii :=
  if v <? 26 then ascii_of_nat (Z.to_nat (65 + v))
  else if v <? 52 then ascii_of_nat (Z.to_nat (71 + v))
  else if v <? 62 then ascii_of_nat (Z.to_nat (v - 4))
  else if v =? 62 then "+"%char
  else "/"%char.

Definition char_code (c : ascii) : Z := Z.of_nat (nat_of_ascii c).

Fixpoint sextets (s : string) : list Z :=
  match s with
  | EmptyString => []
  | String a EmptyString =>
      let n := char_code a in [n / 4; (n mod 4) * 16]
  | String a (String b EmptyString) =>
      let n := char_code a * 256 + char_code b in
      [n / 1024; (n / 16) mod 64; (n mod 16) * 4]
  | String a (String b (String c rest)) =>
      let n := char_code a * 65536 + char_code b * 256 + char_code c in
      n / 262144 :: (n / 4096) mod 64 :: (n / 64) mod 64 :: n mod 64
      :: sextets rest
  end.

Fixpoint base64_padding (s : string) : list ascii :=
  match s with
  | EmptyString => []
  | String _ EmptyString => ["="%char; "="%char]
  | String _ (String _ EmptyString) => ["="%char]
  | String _ (String _ (String _ rest)) => base64_padding rest
  end.

Fixpoint string_of_chars (l : list ascii) : string :=
  match l with
  | [] => EmptyString
  | c :: l' => String c (string_of_chars l')
  end.

Definition base64_encode (s : string) : string :=
  string_of_chars (map base64_char (sextets s) ++ base64_padding s).

(** The locals of [updateCollection] after a document was fetched. *)
Definition collection_document_fields (doc : Json.value)
    : CollectionMetadata :=
  {| cmd_description :=
       Json.nullish (optional_property (Some doc) "description");
     cmd_image := Json.nullish (optional_property (Some doc) "image");
     cmd_data := Some doc |}.

(** What the [try] block of [updateCollection] settles to, from what
    [fetchJson] settled to. *)
Definition collection_metadata_result (r : outcome Json.value)
    : outcome CollectionMetadata :=
  match r with
  | Ok Json.Null => Throw TypeError
  | Ok doc => Ok (collection_document_fields doc)
  | Throw e => Throw e
  end.

(** What [updateCollection] keeps of the document. *)
Definition kept_collection_metadata (contractUri : option string)
    (r : outcome CollectionMetadata) : CollectionMetadata :=
  if truthy contractUri
  then match r with Ok md => md | Throw _ => no_collection_metadata end
  else no_collection_metadata.

(** Does the store fail the statement that comes [k] statements from
    now? *)
Definition nth_fault (k : nat) (w : World) : bool :=
  nth k (db_faults w) false.

(** * Properties *)

(** ** URI resolution *)

(** Replacing a prefix leaves what follows it: this is how [resolveUri]
    takes the remainder after a scheme. *)
Lemma replace_prefix (s p repl : string) :
  Js.startsWith s p = true ->
  Js.replace s p repl = repl ++ Js.slice (String.length p) s.
Proof. intros H. destruct s; simpl; rewrite H; reflexivity. Qed.

(** C4. [resolveUri] follows the five rules: an inline-data string is
    returned unchanged; [ipfs://rest] becomes the IPFS gateway followed by
    [rest]; [ar://rest] becomes the Arweave gateway followed by [rest]; a
    string that begins with [Qm] or [baf] is prefixed with the IPFS
    gateway; a string with none of these prefixes is returned unchanged;
    an absent or empty input gives the empty string.  The five prefixes
    exclude one another, so the first match is the only match. *)
Theorem resolveUri_rules (options : option Uri.ResolveUriOptions)
    (rest u : string) (Hother : has_known_prefix u = false) :
  Uri.resolveUri None options = ""
  /\ Uri.resolveUri (Some "") options = ""
  /\ Uri.resolveUri (Some ("data:" ++ rest)) options = "data:" ++ rest
  /\ Uri.resolveUri (Some ("ipfs://" ++ rest)) options
     = Uri.ipfs_of options ++ rest
  /\ Uri.resolveUri (Some ("ar://" ++ rest)) options
     = Uri.ar_of options ++ rest
  /\ Uri.resolveUri (Some ("Qm" ++ rest)) options
     = Uri.ipfs_of options ++ "Qm" ++ rest
  /\ Uri.resolveUri (Some ("baf" ++ rest)) options
     = Uri.ipfs_of options ++ "baf" ++ rest
  /\ Uri.resolveUri (Some u) options = u.
Proof.
  repeat split; try reflexivity.
  unfold has_known_prefix in Hother.
  repeat (apply orb_false_elim in Hother; destruct Hother as [Hother ?]).
  destruct u as [|c u]; [reflexivity|].
  unfold Uri.resolveUri.
  rewrite Hother. repeat match goal with H : _ = false |- _ => rewrite H end.
  reflexivity.
Qed.

Lemma resolveUri_rules_witness :
  Uri.resolveUri (Some "ipfs://abc") None = "https://ipfs.io/ipfs/abc"
  /\ Uri.resolveUri (Some "https://example.com/m.json") None
     = "https://example.com/m.json".
Proof.
  pose proof (resolveUri_rules None "abc" "https://example.com/m.json"
                ltac:(reflexivity)) as H.
  split; [apply H | apply H].
Defined.

(** The examples of the specification, with the default gateways and with
    configured ones. *)
Example resolveUri_examples :
  Uri.resolveUri (Some "ipfs://abc") None = "https://ipfs.io/ipfs/abc"
  /\ Uri.resolveUri (Some "ar://xyz") None = "https://arweave.net/xyz"
  /\ Uri.resolveUri (Some "Qm123") None = "https://ipfs.io/ipfs/Qm123"
  /\ Uri.resolveUri (Some "ipfs://abc")
       (Some {| Uri.ipfsGateway := Some "https://gw/ipfs/";
                Uri.arweaveGateway := Some "" |})
     = "https://gw/ipfs/abc"
  /\ Uri.resolveUri (Some "ar://xyz")
       (Some {| Uri.ipfsGateway := Some "https://gw/ipfs/";
                Uri.arweaveGateway := Some "" |})
     = "https://arweave.net/xyz".
Proof. repeat split. Qed.

(** ** Freshness *)

(** C10. A timestamp of zero is never fresh, whatever the time to live
    and the clock: it is answered exactly like an absent timestamp. *)
Theorem isFresh_zero (config : ArtifactPluginConfig) (w : World) :
  isFresh config (Some 0) w = (Ok false, w)
  /\ isFresh config (Some 0) w = isFresh config None w.
Proof. split; reflexivity. Qed.

(** C2, as the code has it.  An absent timestamp is not fresh.  A present
    timestamp other than zero is fresh exactly when
    [now - ts * 1000 < cacheTtl]; when exactly [cacheTtl] milliseconds
    have elapsed it is not. *)
Theorem isFresh_nonzero (config : ArtifactPluginConfig) (w : World)
    (ts : Z) (Hts : ts <> 0) :
  isFresh config None w = (Ok false, w)
  /\ isFresh config (Some ts) w
     = (Ok (clock w - ts * 1000 <? ttl_of config), w)
  /\ (isFresh config (Some ts) w = (Ok true, w)
      <-> clock w - ts * 1000 < ttl_of config)
  /\ (clock w - ts * 1000 = ttl_of config ->
      isFresh config (Some ts) w = (Ok false, w)).
Proof.
  assert (E : isFresh config (Some ts) w
              = (Ok (clock w - ts * 1000 <? ttl_of config), w)).
  { unfold isFresh. destruct ts; [congruence| |]; reflexivity. }
  split; [reflexivity|]. split; [exact E|]. rewrite E. split.
  - split.
    + intros H. apply Z.ltb_lt. congruence.
    + intros H. apply Z.ltb_lt in H. rewrite H. reflexivity.
  - intros H. rewrite H, Z.ltb_irrefl. reflexivity.
Qed.

Lemma isFresh_nonzero_witness :
  isFresh (default_config offline_client) (Some 1700000000)
    (empty_world 1700000001000 [])
  = (Ok true, empty_world 1700000001000 []).
Proof.
  pose proof (isFresh_nonzero (default_config offline_client)
                (empty_world 1700000001000 []) 1700000000
                ltac:(discriminate)) as (_ & _ & H & _).
  apply H. reflexivity.
Defined.

(** C2 as stated fails at the timestamp zero: with a time to live longer
    than the time since the epoch, [now - 0 * 1000 < cacheTtl] holds and
    yet the timestamp is not fresh. *)
Lemma isFresh_zero_not_iff :
  ~ (isFresh long_lived_config (Some 0) (empty_world 1800000000000 [])
     = (Ok true, empty_world 1800000000000 [])
     <-> clock (empty_world 1800000000000 []) - 0 * 1000
         < ttl_of long_lived_config).
Proof.
  intros [_ H].
  assert (L : clock (empty_world 1800000000000 []) - 0 * 1000
              < ttl_of long_lived_config) by reflexivity.
  specialize (H L). discriminate H.
Qed.

(** ** Hexadecimal rendering of token ids *)

Lemma string_length_app (s t : string) :
  String.length (s ++ t) = (String.length s + String.length t)%nat.
Proof. induction s; simpl; auto. Qed.

Lemma hex_digit_lower (d : Z) : 0 <= d < 16 -> is_lower_hex (Js.hex_digit d) = true.
Proof.
  intros H.
  assert (C : d = 0 \/ d = 1 \/ d = 2 \/ d = 3 \/ d = 4 \/ d = 5 \/ d = 6
              \/ d = 7 \/ d = 8 \/ d = 9 \/ d = 10 \/ d = 11 \/ d = 12
              \/ d = 13 \/ d = 14 \/ d = 15) by lia.
  repeat (destruct C as [-> | C]; [reflexivity|]). subst. reflexivity.
Qed.

Lemma hex_digit_value (d : Z) :
  0 <= d < 16 -> Js.digit_value (Js.hex_digit d) = Some d.
Proof.
  intros H.
  assert (C : d = 0 \/ d = 1 \/ d = 2 \/ d = 3 \/ d = 4 \/ d = 5 \/ d = 6
              \/ d = 7 \/ d = 8 \/ d = 9 \/ d = 10 \/ d = 11 \/ d = 12
              \/ d = 13 \/ d = 14 \/ d = 15) by lia.
  repeat (destruct C as [-> | C]; [reflexivity|]). subst. reflexivity.
Qed.

Lemma hex_loop_lower (fuel : nat) : forall n acc,
  0 <= n -> all_lower_hex acc = true ->
  all_lower_hex (Js.hex_loop fuel n acc) = true.
Proof.
  induction fuel as [|fuel IH]; intros n acc Hn Hacc; simpl; [exact Hacc|].
  destruct (n =? 0); [exact Hacc|].
  apply IH.
  - apply Z.div_pos; lia.
  - simpl. rewrite hex_digit_lower, Hacc; [reflexivity|].
    apply Z.mod_pos_bound. lia.
Qed.

Lemma hex_loop_length (fuel : nat) : forall (k : nat) n acc,
  0 <= n < 16 ^ Z.of_nat k ->
  (String.length (Js.hex_loop fuel n acc) <= String.length acc + k)%nat.
Proof.
  induction fuel as [|fuel IH]; intros k n acc Hn; simpl; [lia|].
  destruct (Z.eqb_spec n 0) as [|Hnz]; [lia|].
  destruct k as [|k].
  { simpl in Hn. lia. }
  specialize (IH k (n / 16) (String (Js.hex_digit (n mod 16)) acc)).
  simpl in IH.
  assert (0 <= n / 16 < 16 ^ Z.of_nat k).
  { rewrite Nat2Z.inj_succ, Z.pow_succ_r in Hn by lia.
    split; [apply Z.div_pos; lia|].
    apply Z.div_lt_upper_bound; lia. }
  specialize (IH ltac:(assumption)). lia.
Qed.

(** Reading the digits back: the accumulator of [parse_digits_from]. *)
Lemma parse_digits_from_app (base : Z) (s t : string) : forall acc v,
  Js.parse_digits_from base acc s = Some v ->
  Js.parse_digits_from base acc (s ++ t) = Js.parse_digits_from base v t.
Proof.
  induction s as [|c s IH]; intros acc v H; simpl in *.
  - congruence.
  - destruct (Js.digit_value c) as [d|]; [|discriminate].
    destruct (d <? base); [|discriminate].
    apply IH, H.
Qed.

Lemma string_app_assoc (s t u : string) : (s ++ t) ++ u = s ++ (t ++ u).
Proof. induction s; simpl; congruence. Qed.

Lemma hex_loop_acc (fuel : nat) : forall n acc,
  Js.hex_loop fuel n acc = Js.hex_loop fuel n "" ++ acc.
Proof.
  induction fuel as [|fuel IH]; intros n acc; simpl; [reflexivity|].
  destruct (n =? 0); [reflexivity|].
  rewrite (IH _ (String _ acc)), (IH _ (String _ "")).
  rewrite string_app_assoc. reflexivity.
Qed.

Lemma hex_loop_value (fuel : nat) : forall n,
  0 <= n < 16 ^ Z.of_nat fuel ->
  Js.parse_digits_from 16 0 (Js.hex_loop fuel n "") = Some n.
Proof.
  induction fuel as [|fuel IH]; intros n Hn; simpl.
  - simpl in Hn. f_equal. lia.
  - destruct (Z.eqb_spec n 0) as [->|Hnz]; [reflexivity|].
    rewrite hex_loop_acc.
    assert (Hq : 0 <= n / 16 < 16 ^ Z.of_nat fuel).
    { rewrite Nat2Z.inj_succ, Z.pow_succ_r in Hn by lia.
      split; [apply Z.div_pos; lia|].
      apply Z.div_lt_upper_bound; lia. }
    rewrite (parse_digits_from_app _ _ _ _ _ (IH _ Hq)).
    pose proof (Z.mod_pos_bound n 16 ltac:(lia)) as Hm.
    simpl. rewrite (hex_digit_value _ Hm).
    destruct (Z.ltb_spec (n mod 16) 16); [|lia].
    f_equal. pose proof (Z.div_mod n 16 ltac:(lia)). lia.
Qed.

Lemma hex_of_positive_fuel (n : Z) :
  0 < n -> 0 <= n < 16 ^ Z.of_nat (S (Z.to_nat (Z.log2 n))).
Proof.
  intros Hn. split; [lia|].
  pose proof (Z.log2_nonneg n) as Hl.
  destruct (Z.log2_spec n Hn) as [_ Hlt].
  rewrite Nat2Z.inj_succ, Z2Nat.id by lia.
  eapply Z.lt_le_trans; [exact Hlt|].
  apply Z.pow_le_mono_l. lia.
Qed.

Lemma repeat_zero_parse (k : nat) :
  Js.parse_digits_from 16 0 (Js.repeat_char "0" k) = Some 0.
Proof. induction k; simpl; auto. Qed.

Lemma repeat_char_length (c : ascii) (k : nat) :
  String.length (Js.repeat_char c k) = k.
Proof. induction k; simpl; auto. Qed.

Lemma all_lower_hex_app (s t : string) :
  all_lower_hex (s ++ t) = all_lower_hex s && all_lower_hex t.
Proof.
  induction s as [|c s IH]; simpl; [reflexivity|].
  rewrite IH, andb_assoc. reflexivity.
Qed.

Lemma repeat_zero_lower (k : nat) : all_lower_hex (Js.repeat_char "0" k) = true.
Proof. induction k; simpl; auto. Qed.

(** A token id that fits [uint256] is rendered by
    [tokenId.toString(16).padStart(64, "0")] as exactly 64 lower-case
    hexadecimal digits whose value is the id. *)
Lemma tokenIdHex_spec (tokenId : Z) :
  0 <= tokenId < 2 ^ 256 ->
  let tokenIdHex := Js.padStart 64 "0" (Js.toString16 tokenId) in
  String.length tokenIdHex = 64%nat
  /\ all_lower_hex tokenIdHex = true
  /\ Js.parse_digits 16 tokenIdHex = Some tokenId.
Proof.
  intros Hid tokenIdHex.
  assert (Hs : (String.length (Js.toString16 tokenId) <= 64)%nat
               /\ all_lower_hex (Js.toString16 tokenId) = true
               /\ Js.parse_digits_from 16 0 (Js.toString16 tokenId)
                  = Some tokenId).
  { unfold Js.toString16.
    destruct (Z.eqb_spec tokenId 0) as [->|Hnz].
    { repeat split. simpl. lia. }
    destruct (Z.ltb_spec tokenId 0); [lia|].
    unfold Js.hex_of_positive. split; [|split].
    - pose proof (hex_loop_length (S (Z.to_nat (Z.log2 tokenId))) 64
                    tokenId "") as L.
      simpl String.length in L. apply L.
      change (16 ^ Z.of_nat 64) with (2 ^ 256). lia.
    - apply hex_loop_lower; [lia|reflexivity].
    - apply hex_loop_value, hex_of_positive_fuel. lia. }
  destruct Hs as (Hlen & Hlow & Hval).
  assert (Hl : String.length tokenIdHex = 64%nat).
  { unfold tokenIdHex, Js.padStart.
    rewrite string_length_app, repeat_char_length. lia. }
  split; [exact Hl|]. split.
  - unfold tokenIdHex, Js.padStart.
    rewrite all_lower_hex_app, repeat_zero_lower, Hlow. reflexivity.
  - unfold Js.parse_digits.
    destruct tokenIdHex as [|c r] eqn:E; [discriminate Hl|].
    rewrite <- E. unfold tokenIdHex, Js.padStart.
    rewrite (parse_digits_from_app _ _ _ _ _ (repeat_zero_parse _)).
    exact Hval.
Qed.

(** ** Replacing the first occurrence *)

Lemma includes_cons_false (c : ascii) (s pat : string) :
  Js.includes (String c s) pat = false ->
  Js.startsWith (String c s) pat = false /\ Js.includes s pat = false.
Proof.
  simpl Js.includes.
  destruct (Js.startsWith (String c s) pat); [discriminate|auto].
Qed.

(** No occurrence of the placeholder can begin inside [pre] and run into
    the one that follows it, because the brace opens the placeholder and
    occurs nowhere else in it. *)
Lemma id_placeholder_no_overlap (pre post : string) :
  Js.startsWith pre "{id}" = false ->
  pre <> "" ->
  Js.startsWith (pre ++ "{id}" ++ post) "{id}" = false.
Proof.
  intros H Hne.
  destruct pre as [|c0 [|c1 [|c2 [|c3 pre]]]]; [congruence| | | |];
    cbn [Js.startsWith String.append] in *;
    repeat match goal with
           | |- context [Ascii.eqb ?a ?b] =>
               destruct (Ascii.eqb_spec a b); subst; try reflexivity;
               try discriminate
           | H : context [Ascii.eqb ?a ?b] |- _ =>
               destruct (Ascii.eqb_spec a b); subst; try reflexivity;
               try discriminate
           end.
Qed.

Lemma replace_first_id (pre post repl : string) :
  Js.includes pre "{id}" = false ->
  Js.replace (pre ++ "{id}" ++ post) "{id}" repl = pre ++ repl ++ post.
Proof.
  induction pre as [|c pre IH]; intros H.
  - reflexivity.
  - apply includes_cons_false in H. destruct H as [Hs Hi].
    pose proof (id_placeholder_no_overlap (String c pre) post Hs
                  ltac:(discriminate)) as Hno.
    change (String c pre ++ "{id}" ++ post)
      with (String c (pre ++ "{id}" ++ post)) in *.
    cbn [Js.replace]. rewrite Hno.
    change (String c pre ++ repl ++ post) with (String c (pre ++ repl ++ post)).
    f_equal. apply IH, Hi.
Qed.

Lemma replace_absent (s pat repl : string) :
  Js.includes s pat = false -> Js.replace s pat repl = s.
Proof.
  induction s as [|c s IH]; intros H.
  - simpl in *. destruct (Js.startsWith "" pat); [discriminate|reflexivity].
  - apply includes_cons_false in H. destruct H as [Hs Hi].
    cbn [Js.replace]. rewrite Hs. f_equal. apply IH, Hi.
Qed.

(** ** Computations *)

Lemma add_trace_nil (w : World) : add_trace [] w = w.
Proof. destruct w. unfold add_trace. simpl. rewrite app_nil_r. reflexivity. Qed.

Lemma add_trace_app (t1 t2 : list Event) (w : World) :
  add_trace t2 (add_trace t1 w) = add_trace (t1 ++ t2) w.
Proof. unfold add_trace. simpl. rewrite app_assoc. reflexivity. Qed.

Section Settles.

Context {A B : Type}.

Lemma settles_ret (a : A) : settles (ret a) (Ok a) [].
Proof. intros w. unfold ret. rewrite add_trace_nil. reflexivity. Qed.

Lemma settles_throw (e : Error) : settles (@throw A e) (Throw e) [].
Proof. intros w. unfold throw. rewrite add_trace_nil. reflexivity. Qed.

Lemma settles_or_throw (e : Error) (x : option A) :
  settles (or_throw e x) (match x with Some a => Ok a | None => Throw e end) [].
Proof. destruct x; [apply settles_ret | apply settles_throw]. Qed.

Lemma settles_bind (m : M A) (k : A -> M B) a t1 r t2 :
  settles m (Ok a) t1 -> settles (k a) r t2 ->
  settles (bind m k) r (t1 ++ t2).
Proof.
  intros Hm Hk w. unfold bind. rewrite Hm, Hk, add_trace_app. reflexivity.
Qed.

Lemma settles_bind_throw (m : M A) (k : A -> M B) e t1 :
  settles m (Throw e) t1 -> settles (bind m k) (Throw e) t1.
Proof. intros Hm w. unfold bind. rewrite Hm. reflexivity. Qed.

Lemma settles_catch_ok (m : M A) (h : Error -> M A) a t1 :
  settles m (Ok a) t1 -> settles (catch m h) (Ok a) t1.
Proof. intros Hm w. unfold catch. rewrite Hm. reflexivity. Qed.

Lemma settles_catch_throw (m : M A) (h : Error -> M A) e t1 r t2 :
  settles m (Throw e) t1 -> settles (h e) r t2 ->
  settles (catch m h) r (t1 ++ t2).
Proof.
  intros Hm Hh w. unfold catch. rewrite Hm, Hh, add_trace_app. reflexivity.
Qed.

Lemma io_ret (a : A) : io (ret a).
Proof. eexists _, _. apply settles_ret. Qed.

Lemma io_throw (e : Error) : io (@throw A e).
Proof. eexists _, _. apply settles_throw. Qed.

Lemma io_or_throw (e : Error) (x : option A) : io (or_throw e x).
Proof. eexists _, _. apply settles_or_throw. Qed.

Lemma io_bind (m : M A) (k : A -> M B) :
  io m -> (forall a, io (k a)) -> io (bind m k).
Proof.
  intros ([a|e] & t1 & Hm) Hk.
  - destruct (Hk a) as (r & t2 & Ha).
    eexists _, _. eapply settles_bind; eassumption.
  - eexists _, _. eapply settles_bind_throw; eassumption.
Qed.

Lemma io_catch (m : M A) (h : Error -> M A) :
  io m -> (forall e, io (h e)) -> io (catch m h).
Proof.
  intros ([a|e] & t1 & Hm) Hh.
  - eexists _, _. eapply settles_catch_ok; eassumption.
  - destruct (Hh e) as (r & t2 & He).
    eexists _, _. eapply settles_catch_throw; eassumption.
Qed.

End Settles.

Lemma settles_emit (e : Event) : settles (emit e) (Ok tt) [e].
Proof. intros w. reflexivity. Qed.

Lemma io_emit (e : Event) : io (emit e).
Proof. eexists _, _. apply settles_emit. Qed.

Create HintDb io.
#[local] Hint Resolve io_ret io_throw io_or_throw io_emit : io.

Ltac io_step :=
  first [ apply io_bind; [|intros ?]
        | apply io_catch; [|intros ?]
        | solve [auto with io] ].

Lemma io_fetchJson host u options : io (Uri.fetchJson host u options).
Proof.
  unfold Uri.fetchJson, Uri.do_fetch.
  repeat match goal with
         | |- io (if ?b then _ else _) => destruct b
         | |- _ => io_step
         end.
Qed.

Lemma io_read_property v k : io (read_property v k).
Proof. destruct v; simpl; auto with io. Qed.

#[local] Hint Resolve io_fetchJson io_read_property : io.

Lemma io_token_metadata host config u : io (token_metadata host config u).
Proof. unfold token_metadata. repeat io_step. Qed.

Lemma io_collection_metadata host config u :
  io (collection_metadata host config u).
Proof. unfold collection_metadata. repeat io_step. Qed.

Lemma io_fetchTokenUri config address tokenId standard :
  io (fetchTokenUri config address tokenId standard).
Proof. unfold fetchTokenUri. destruct standard; repeat io_step. Qed.

(** ** Standard detection *)

Lemma settles_read_supportsInterface config address interfaceId :
  settles
    (catch (read_supportsInterface config address interfaceId)
       (fun _ => ret false))
    (Ok (probe_affirms (client config) address interfaceId))
    [ReadContract address "supportsInterface" [interfaceId]].
Proof.
  intros w. unfold catch, read_supportsInterface, bind, emit, probe_affirms.
  destruct (supportsInterface (client config) address interfaceId) as [[]|];
    reflexivity.
Qed.

Lemma settles_detectStandard config address :
  settles (detectStandard config address)
    (Ok (probe_standard (client config) address))
    (probe_events (client config) address).
Proof.
  intros w. unfold detectStandard, bind, probe_standard, probe_events.
  rewrite settles_read_supportsInterface.
  destruct (probe_affirms (client config) address ERC721_INTERFACE_ID).
  - reflexivity.
  - rewrite settles_read_supportsInterface, add_trace_app.
    destruct (probe_affirms (client config) address ERC1155_INTERFACE_ID);
      reflexivity.
Qed.

(** ** The store *)

Lemma upsert_token_run address tokenId row w :
  upsert_token address tokenId row w
  = let w1 := statement_sent (Upsert "artifact_token" [address; tokenId]) w in
    if store_fails w then (Throw StoreError, w1)
    else (Ok tt,
          with_artifact_token
            (<[(address, tokenId) :=
                 upserted_token address tokenId row (artifact_token w)]>
               (artifact_token w)) w1).
Proof.
  unfold upsert_token, bind, emit, db_statement, store_fails, upserted_token,
    statement_sent, with_artifact_token, set_artifact_token.
  simpl. destruct (db_faults w) as [|[] ?]; simpl;
    try reflexivity; destruct (artifact_token w !! (address, tokenId));
    reflexivity.
Qed.

Lemma upsert_collection_run normalized row w :
  upsert_collection normalized row w
  = let w1 := statement_sent (Upsert "artifact_collection" [normalized]) w in
    if store_fails w then (Throw StoreError, w1)
    else (Ok tt,
          with_artifact_collection
            (<[normalized :=
                 upserted_collection normalized row (artifact_collection w)]>
               (artifact_collection w)) w1).
Proof.
  unfold upsert_collection, bind, emit, db_statement, store_fails,
    upserted_collection, statement_sent, with_artifact_collection,
    set_artifact_collection.
  simpl. destruct (db_faults w) as [|[] ?]; simpl;
    try reflexivity; destruct (artifact_collection w !! normalized);
    reflexivity.
Qed.

Lemma fetchToken_run collection tokenId w :
  fetchToken collection tokenId w
  = let w1 := statement_sent
                (Select "artifact_token" [Js.toLowerCase collection; tokenId])
                w in
    if store_fails w then (Throw StoreError, w1)
    else (Ok (artifact_token w !! (Js.toLowerCase collection, tokenId)), w1).
Proof.
  unfold fetchToken, bind, emit, db_statement, store_fails, statement_sent.
  simpl.
  destruct (db_faults w) as [|[] ?]; reflexivity.
Qed.

Lemma fetchCollection_run address w :
  fetchCollection address w
  = let w1 := statement_sent
                (Select "artifact_collection" [Js.toLowerCase address]) w in
    if store_fails w then (Throw StoreError, w1)
    else (Ok (artifact_collection w !! Js.toLowerCase address), w1).
Proof.
  unfold fetchCollection, bind, emit, db_statement, store_fails,
    statement_sent.
  simpl.
  destruct (db_faults w) as [|[] ?]; reflexivity.
Qed.

(** ** One pass of [updateToken] and of [updateCollection] *)

Lemma settles_unique {A} (m : M A) r t r' t' (w : World) :
  settles m r t -> settles m r' t' -> r = r'.
Proof. intros H H'. specialize (H w). rewrite H' in H. congruence. Qed.

Lemma settles_or_default {A} (m : M A) (d : A) r t :
  settles m r t ->
  settles (catch m (fun _ => ret d))
    (Ok (match r with Ok v => v | Throw _ => d end)) t.
Proof.
  intros H. destruct r.
  - apply settles_catch_ok, H.
  - rewrite <- (app_nil_r t). eapply settles_catch_throw; [exact H|].
    apply settles_ret.
Qed.

Lemma settles_some {A} (m : M A) r t :
  settles m r t ->
  settles (v <- m;; ret (Some v))
    (match r with Ok v => Ok (Some v) | Throw e => Throw e end) t.
Proof.
  intros H. destruct r.
  - rewrite <- (app_nil_r t). eapply settles_bind; [exact H|].
    apply settles_ret.
  - apply settles_bind_throw, H.
Qed.

(** Everything before the upsert is made of chain and network calls that
    settle to values: the pass resolves a standard, a URI and the metadata
    fields that do not depend on the store, and hands them to the upsert. *)
Lemma updateToken_run host config collection tokenId n :
  Js.BigInt tokenId = Some n ->
  let address := Js.toLowerCase collection in
  let std := probe_standard (client config) address in
  exists ru tu rm tm events,
    settles (fetchTokenUri config address n std) ru tu
    /\ settles (token_metadata host config (default "" (kept_uri ru))) rm tm
    /\ forall w,
        updateToken host config collection tokenId w
        = upsert_token address tokenId
            (token_row std (kept_uri ru) (kept_metadata (kept_uri ru) rm)
               (clock w))
            (add_trace events w).
Proof.
  intros Hn address std.
  destruct (io_fetchTokenUri config address n std) as (ru & tu & Hu).
  destruct (io_token_metadata host config (default "" (kept_uri ru)))
    as (rm & tm & Hm).
  pose proof (settles_or_default _ None _ _ (settles_some _ _ _ Hu)) as Hu'.
  assert (Hm' : exists t3,
             settles (if truthy (kept_uri ru)
                      then catch (token_metadata host config
                                    (default "" (kept_uri ru)))
                             (fun _ => ret no_token_metadata)
                      else ret no_token_metadata)
               (Ok (kept_metadata (kept_uri ru) rm)) t3).
  { unfold kept_metadata. destruct (truthy (kept_uri ru)).
    - eexists. apply settles_or_default, Hm.
    - eexists. apply settles_ret. }
  destruct Hm' as (t3 & Hm').
  exists ru, tu, rm, tm, (probe_events (client config) address ++ tu ++ t3)%list.
  split; [exact Hu|]. split; [exact Hm|].
  intros w. unfold updateToken. fold address. rewrite Hn.
  unfold bind at 1. simpl or_throw. unfold ret at 1.
  unfold bind at 1. rewrite settles_detectStandard. fold std.
  unfold bind at 1. rewrite Hu'.
  replace (match match ru with
                 | Ok v => Ok (Some v)
                 | Throw e => Throw e
                 end with
           | Ok v => v
           | Throw _ => None
           end) with (kept_uri ru) by (destruct ru; reflexivity).
  unfold bind at 1. rewrite Hm'.
  unfold bind at 1. unfold Date_now.
  rewrite !add_trace_app. reflexivity.
Qed.

Lemma settles_read_collection config normalized functionName read :
  settles (read_collection config normalized functionName read)
    (Ok (read (client config) normalized))
    [ReadContract normalized functionName []].
Proof.
  intros w. unfold read_collection, catch, bind, emit.
  destruct (read (client config) normalized); reflexivity.
Qed.

Lemma updateCollection_run host config address :
  let normalized := Js.toLowerCase address in
  let c := client config in
  exists md events, forall w,
    updateCollection host config address w
    = upsert_collection normalized
        (collection_row (probe_standard c normalized)
           (name c normalized) (symbol c normalized) (owner c normalized)
           (contractURI c normalized) md (clock w))
        (add_trace events w).
Proof.
  intros normalized c.
  set (contractUri := contractURI c normalized).
  assert (Hm : exists md t3,
             settles (if truthy contractUri
                      then catch (collection_metadata host config
                                    (default "" contractUri))
                             (fun _ => ret no_collection_metadata)
                      else ret no_collection_metadata) (Ok md) t3).
  { destruct (truthy contractUri).
    - destruct (io_collection_metadata host config (default "" contractUri))
        as (rm & tm & Hrm).
      eexists _, _. apply settles_or_default, Hrm.
    - eexists _, _. apply settles_ret. }
  destruct Hm as (md & t3 & Hm).
  eexists md, _. intros w. unfold updateCollection. fold normalized.
  do 4 (unfold bind at 1; rewrite settles_read_collection).
  unfold bind at 1. rewrite settles_detectStandard.
  fold c. fold contractUri.
  unfold bind at 1. rewrite Hm.
  unfold bind at 1. unfold Date_now.
  rewrite !add_trace_app. reflexivity.
Qed.

(** Both updates, with the store's answer spelled out. *)
Lemma updateToken_outcome host config collection tokenId n :
  Js.BigInt tokenId = Some n ->
  let address := Js.toLowerCase collection in
  let std := probe_standard (client config) address in
  exists ru tu rm tm events,
    settles (fetchTokenUri config address n std) ru tu
    /\ settles (token_metadata host config (default "" (kept_uri ru))) rm tm
    /\ forall w,
        let row := token_row std (kept_uri ru)
                     (kept_metadata (kept_uri ru) rm) (clock w) in
        let w1 := statement_sent (Upsert "artifact_token" [address; tokenId])
                    (add_trace events w) in
        updateToken host config collection tokenId w
        = if store_fails w then (Throw StoreError, w1)
          else (Ok tt,
                with_artifact_token
                  (<[(address, tokenId) :=
                       upserted_token address tokenId row (artifact_token w)]>
                     (artifact_token w)) w1).
Proof.
  intros Hn address std.
  destruct (updateToken_run host config collection tokenId n Hn)
    as (ru & tu & rm & tm & events & Hu & Hm & Hrun).
  exists ru, tu, rm, tm, events. split; [exact Hu|]. split; [exact Hm|].
  intros w. cbv zeta. rewrite Hrun, upsert_token_run. reflexivity.
Qed.

Lemma updateCollection_outcome host config address :
  let normalized := Js.toLowerCase address in
  let c := client config in
  exists md events, forall w,
    let row := collection_row (probe_standard c normalized)
                 (name c normalized) (symbol c normalized)
                 (owner c normalized) (contractURI c normalized) md
                 (clock w) in
    let w1 := statement_sent (Upsert "artifact_collection" [normalized])
                (add_trace events w) in
    updateCollection host config address w
    = if store_fails w then (Throw StoreError, w1)
      else (Ok tt,
            with_artifact_collection
              (<[normalized :=
                   upserted_collection normalized row
                     (artifact_collection w)]>
                 (artifact_collection w)) w1).
Proof.
  intros normalized c.
  destruct (updateCollection_run host config address) as (md & events & Hrun).
  exists md, events. intros w. cbv zeta.
  rewrite Hrun, upsert_collection_run. reflexivity.
Qed.

(** ** Decimal token ids *)

Lemma decimal_digit_facts (c : ascii) :
  is_decimal_digit c = true ->
  Js.is_js_whitespace c = false
  /\ Ascii.eqb "+" c = false /\ Ascii.eqb "-" c = false
  /\ Ascii.eqb "x" c = false /\ Ascii.eqb "X" c = false
  /\ Ascii.eqb "o" c = false /\ Ascii.eqb "O" c = false
  /\ Ascii.eqb "b" c = false /\ Ascii.eqb "B" c = false
  /\ exists d, Js.digit_value c = Some d /\ 0 <= d < 10.
Proof.
  destruct c as [[] [] [] [] [] [] [] []]; intros H; try discriminate H;
    repeat split; eexists; (split; [vm_compute; reflexivity|lia]).
Qed.

Lemma trimEnd_decimal (s : string) : all_decimal s = true -> Js.trimEnd s = s.
Proof.
  induction s as [|c s IH]; intros H; [reflexivity|].
  simpl in H. apply andb_prop in H. destruct H as [Hc Hs].
  simpl. rewrite (IH Hs).
  destruct (decimal_digit_facts c Hc) as (Hw & _).
  destruct s; [rewrite Hw|]; reflexivity.
Qed.

Lemma parse_decimal (s : string) : forall acc,
  all_decimal s = true -> 0 <= acc ->
  exists n, Js.parse_digits_from 10 acc s = Some n /\ 0 <= n.
Proof.
  induction s as [|c s IH]; intros acc H Hacc.
  - exists acc. split; [reflexivity|exact Hacc].
  - simpl in H. apply andb_prop in H. destruct H as [Hc Hs].
    destruct (decimal_digit_facts c Hc) as (_&_&_&_&_&_&_&_&_& d & Hd & Hr).
    simpl. rewrite Hd.
    destruct (Z.ltb_spec d 10); [|lia].
    apply IH; [exact Hs|lia].
Qed.

(** [BigInt] accepts every decimal string. *)
Lemma BigInt_decimal (s : string) :
  is_decimal s = true -> exists n, Js.BigInt s = Some n /\ 0 <= n.
Proof.
  unfold is_decimal. intros H. apply andb_prop in H. destruct H as [Hne Hd].
  destruct s as [|c s]; [discriminate Hne|].
  pose proof Hd as Hd'. simpl in Hd'. apply andb_prop in Hd'.
  destruct Hd' as [Hc Hs].
  destruct (decimal_digit_facts c Hc)
    as (Hw & Hplus & Hminus & Hx & HX & Ho & HO & Hb & HB & _).
  assert (Ht : Js.trim (String c s) = String c s).
  { unfold Js.trim. simpl Js.trimStart. rewrite Hw.
    apply trimEnd_decimal, Hd. }
  assert (H2 : forall a b : ascii,
             Ascii.eqb b c = false \/
             (forall d, is_decimal_digit d = true -> Ascii.eqb a d = false) ->
             Js.startsWith (String c s) (String b (String a "")) = false).
  { intros a b [Hbc|Ha]; cbn [Js.startsWith]; [rewrite Hbc; reflexivity|].
    destruct (Ascii.eqb b c); [|reflexivity].
    destruct s as [|d s']; [reflexivity|].
    simpl in Hs. apply andb_prop in Hs. destruct Hs as [Hdd _].
    rewrite (Ha d Hdd). reflexivity. }
  unfold Js.BigInt. rewrite Ht.
  cbn [String.eqb].
  assert (E1 : Js.startsWith (String c s) "+" = false)
    by (cbn [Js.startsWith]; rewrite Hplus; reflexivity).
  assert (E2 : Js.startsWith (String c s) "-" = false)
    by (cbn [Js.startsWith]; rewrite Hminus; reflexivity).
  rewrite E1, E2.
  rewrite !H2 by (right; intros d Hdd; apply (decimal_digit_facts d Hdd)).
  cbn [orb]. unfold Js.parse_digits.
  apply parse_decimal; [exact Hd|lia].
Qed.

(** ** The token URI *)

Lemma settles_fetchTokenUri config address tokenId standard :
  exists events,
    settles (fetchTokenUri config address tokenId standard)
      (match uri_read (client config) address tokenId standard with
       | Some u =>
           Ok (match standard with
               | erc1155 =>
                   Js.replace u "{id}"
                     (Js.padStart 64 "0" (Js.toString16 tokenId))
               | _ => u
               end)
       | None => Throw ContractCallError
       end) events.
Proof.
  unfold fetchTokenUri, uri_read.
  destruct standard; eexists; intros w; unfold bind, emit;
    match goal with
    | |- context [or_throw _ ?x] => destruct x
    end; reflexivity.
Qed.

Lemma upserted_token_fields address tokenId row table :
  let r := upserted_token address tokenId row table in
  Token.tokenStandard r = Token.row_tokenStandard row
  /\ Token.tokenUri r = Token.row_tokenUri row
  /\ Token.name r = Token.row_name row
  /\ Token.description r = Token.row_description row
  /\ Token.image r = Token.row_image row
  /\ Token.animationUrl r = Token.row_animationUrl row
  /\ Token.data r = Token.row_data row
  /\ Token.updatedAt r = Token.row_updatedAt row.
Proof.
  unfold upserted_token. destruct (table !! (address, tokenId));
    repeat split.
Qed.

Lemma kept_metadata_absent tokenUri r :
  (forall md, r = Ok md -> truthy tokenUri = false) ->
  kept_metadata tokenUri r = no_token_metadata.
Proof.
  intros H. unfold kept_metadata. destruct (truthy tokenUri); [|reflexivity].
  destruct r as [md|]; [|reflexivity]. discriminate (H md eq_refl).
Qed.

(** C3. For a decimal token id, [updateToken] ends in exactly one of two
    ways, whatever the chain, the network and the parser answer: when the
    store fails the write it throws the store's error, and otherwise it
    completes and the key holds a record.  A failed URI read leaves the URI
    and the metadata fields absent in that record, and a document that could
    not be fetched or parsed leaves the metadata fields absent. *)
Theorem updateToken_throws_only_on_store_failure
    (host : Host) (config : ArtifactPluginConfig)
    (collection tokenId : string) (w : World)
    (Hdec : is_decimal tokenId = true) :
  let address := Js.toLowerCase collection in
  let std := probe_standard (client config) address in
  exists n,
    Js.BigInt tokenId = Some n
    /\ (store_fails w = true ->
        exists w',
          updateToken host config collection tokenId w
          = (Throw StoreError, w'))
    /\ (store_fails w = false ->
        exists w' r,
          updateToken host config collection tokenId w = (Ok tt, w')
          /\ artifact_token w' !! (address, tokenId) = Some r
          /\ Token.tokenStandard r = std
          /\ (uri_read (client config) address n std = None ->
              Token.tokenUri r = None /\ metadata_absent r)
          /\ (forall u e t,
                Token.tokenUri r = Some u ->
                settles (Uri.fetchJson host u (uriOptions config)) (Throw e) t ->
                metadata_absent r))
    /\ (forall e w',
          updateToken host config collection tokenId w = (Throw e, w') ->
          e = StoreError /\ store_fails w = true).
Proof.
  intros address std.
  destruct (BigInt_decimal tokenId Hdec) as (n & Hn & _).
  exists n. split; [exact Hn|].
  destruct (updateToken_outcome host config collection tokenId n Hn)
    as (ru & tu & rm & tm & events & Hu & Hm & Hrun).
  fold address in Hu, Hm, Hrun. fold std in Hu, Hrun.
  specialize (Hrun w). cbv zeta in Hrun.
  split; [|split].
  - intros Hf. rewrite Hf in Hrun. eexists. exact Hrun.
  - intros Hf. rewrite Hf in Hrun.
    eexists _, _. split; [exact Hrun|].
    split; [apply lookup_insert_eq|].
    match goal with
    | |- context [upserted_token ?a ?t ?row ?tbl] =>
        destruct (upserted_token_fields a t row tbl)
          as (Fs & Fu & Fn & Fd & Fi & Fa & Fdata & _)
    end.
    unfold metadata_absent.
    rewrite Fs, Fu, Fn, Fd, Fi, Fa, Fdata. clear Fs Fu Fn Fd Fi Fa Fdata.
    cbn [token_row Token.row_tokenStandard Token.row_tokenUri Token.row_name
         Token.row_description Token.row_image Token.row_animationUrl
         Token.row_data].
    split; [reflexivity|]. split.
    + intros Hnone.
      destruct (settles_fetchTokenUri config address n std) as (ev & Hs).
      rewrite Hnone in Hs.
      rewrite (settles_unique _ _ _ _ _ w Hu Hs).
      split; [reflexivity|]. repeat split.
    + intros u e t Hsome Hfail.
      rewrite Hsome in Hm. simpl default in Hm.
      assert (Hthrow : settles (token_metadata host config u) (Throw e) t).
      { unfold token_metadata. apply settles_bind_throw, Hfail. }
      rewrite (settles_unique _ _ _ _ _ w Hm Hthrow).
      rewrite kept_metadata_absent by (intros md Hmd; discriminate Hmd).
      repeat split.
  - intros e w' He. rewrite Hrun in He.
    destruct (store_fails w); [|discriminate He].
    split; [congruence|reflexivity].
Qed.

Lemma updateToken_throws_only_on_store_failure_witness :
  exists w',
    updateToken offline_host (default_config offline_client) "0xAbC" "42"
      (empty_world 1700000000123 [])
    = (Ok tt, w').
Proof.
  destruct (updateToken_throws_only_on_store_failure offline_host
              (default_config offline_client) "0xAbC" "42"
              (empty_world 1700000000123 []) eq_refl)
    as (n & _ & _ & H & _).
  destruct (H eq_refl) as (w' & r & E & _).
  exists w'. exact E.
Defined.

(** C6. For an ERC1155 token whose id fits [uint256], the URI comes from
    the contract's [uri] function, and the first [{id}] of the returned
    string is replaced with the id written as 64 lower-case hexadecimal
    digits, padded with zeros and without prefix. *)
Theorem fetchTokenUri_erc1155_template
    (config : ArtifactPluginConfig) (address : string) (tokenId : Z)
    (pre post : string) (w : World)
    (Hid : 0 <= tokenId < 2 ^ 256)
    (Huri : uri (client config) address tokenId = Some (pre ++ "{id}" ++ post))
    (Hfirst : Js.includes pre "{id}" = false) :
  let tokenIdHex := Js.padStart 64 "0" (Js.toString16 tokenId) in
  fetchTokenUri config address tokenId erc1155 w
  = (Ok (pre ++ tokenIdHex ++ post),
     add_trace [ReadContract address "uri" [Js.toString16 tokenId]] w)
  /\ String.length tokenIdHex = 64%nat
  /\ all_lower_hex tokenIdHex = true
  /\ Js.parse_digits 16 tokenIdHex = Some tokenId.
Proof.
  intros tokenIdHex. split; [|apply tokenIdHex_spec, Hid].
  unfold fetchTokenUri, bind, emit. rewrite Huri.
  unfold or_throw, ret. rewrite replace_first_id by exact Hfirst.
  reflexivity.
Qed.

Lemma fetchTokenUri_erc1155_template_witness :
  fetchTokenUri (default_config (erc1155_client "https://x/{id}.json"))
    "0xabc" 255 erc1155 (empty_world 0 [])
  = (Ok "https://x/00000000000000000000000000000000000000000000000000000000000000ff.json",
     add_trace [ReadContract "0xabc" "uri" ["ff"]] (empty_world 0 [])).
Proof.
  exact (proj1 (fetchTokenUri_erc1155_template
                  (default_config (erc1155_client "https://x/{id}.json"))
                  "0xabc" 255 "https://x/" ".json" (empty_world 0 [])
                  ltac:(lia) eq_refl eq_refl)).
Defined.

(** ** The standard of a refresh *)

Lemma updateToken_bad_id host config collection tokenId w :
  Js.BigInt tokenId = None ->
  updateToken host config collection tokenId w = (Throw SyntaxError, w).
Proof. intros H. unfold updateToken. rewrite H. reflexivity. Qed.

Lemma updateToken_ok_inv host config collection tokenId w w' :
  updateToken host config collection tokenId w = (Ok tt, w') ->
  exists n, Js.BigInt tokenId = Some n /\ store_fails w = false.
Proof.
  intros H. destruct (Js.BigInt tokenId) as [n|] eqn:Hn.
  - exists n. split; [reflexivity|].
    destruct (updateToken_outcome host config collection tokenId n Hn)
      as (ru & tu & rm & tm & events & _ & _ & Hrun).
    rewrite Hrun in H. destruct (store_fails w); [discriminate H|reflexivity].
  - rewrite updateToken_bad_id in H by exact Hn. discriminate H.
Qed.

Lemma upserted_collection_fields normalized row table :
  let r := upserted_collection normalized row table in
  Collection.tokenStandard r = Collection.row_tokenStandard row
  /\ Collection.name r = Collection.row_name row
  /\ Collection.symbol r = Collection.row_symbol row
  /\ Collection.owner r = Collection.row_owner row
  /\ Collection.contractUri r = Collection.row_contractUri row
  /\ Collection.description r = Collection.row_description row
  /\ Collection.image r = Collection.row_image row
  /\ Collection.data r = Collection.row_data row
  /\ Collection.updatedAt r = Collection.row_updatedAt row.
Proof.
  unfold upserted_collection. destruct (table !! normalized); repeat split.
Qed.

(** C7. The ERC721 probe is made first and ERC721 is the answer when it
    affirms; otherwise the ERC1155 probe is made and ERC1155 is the answer
    when it affirms; otherwise the answer is unknown.  A probe that fails
    counts as one that does not affirm, and detection always returns.  The
    record written by a refresh of a token or of a collection carries that
    standard. *)
Theorem detectStandard_probes_in_order
    (host : Host) (config : ArtifactPluginConfig)
    (address collection tokenId : string) :
  settles (detectStandard config address)
    (Ok (probe_standard (client config) address))
    (probe_events (client config) address)
  /\ (forall w w',
        updateToken host config collection tokenId w = (Ok tt, w') ->
        exists r,
          artifact_token w' !! (Js.toLowerCase collection, tokenId) = Some r
          /\ Token.tokenStandard r
             = probe_standard (client config) (Js.toLowerCase collection))
  /\ (forall w w',
        updateCollection host config address w = (Ok tt, w') ->
        exists r,
          artifact_collection w' !! Js.toLowerCase address = Some r
          /\ Collection.tokenStandard r
             = probe_standard (client config) (Js.toLowerCase address)).
Proof.
  split; [apply settles_detectStandard|]. split.
  - intros w w' H.
    destruct (updateToken_ok_inv _ _ _ _ _ _ H) as (n & Hn & Hf).
    destruct (updateToken_outcome host config collection tokenId n Hn)
      as (ru & tu & rm & tm & events & _ & _ & Hrun).
    rewrite Hrun, Hf in H. injection H as <-.
    eexists. split; [apply lookup_insert_eq|].
    match goal with
    | |- context [upserted_token ?a ?t ?row ?tbl] =>
        destruct (upserted_token_fields a t row tbl) as (Fs & _)
    end.
    rewrite Fs. reflexivity.
  - intros w w' H.
    destruct (updateCollection_outcome host config address)
      as (md & events & Hrun).
    rewrite Hrun in H. destruct (store_fails w); [discriminate H|].
    injection H as <-.
    eexists. split; [apply lookup_insert_eq|].
    match goal with
    | |- context [upserted_collection ?a ?row ?tbl] =>
        destruct (upserted_collection_fields a row tbl) as (Fs & _)
    end.
    rewrite Fs. reflexivity.
Qed.

Lemma detectStandard_probes_in_order_witness :
  detectStandard (default_config (erc1155_client "")) "0xabc"
    (empty_world 0 [])
  = (Ok erc1155,
     add_trace
       [ReadContract "0xabc" "supportsInterface" [ERC721_INTERFACE_ID];
        ReadContract "0xabc" "supportsInterface" [ERC1155_INTERFACE_ID]]
       (empty_world 0 [])).
Proof.
  exact (proj1 (detectStandard_probes_in_order offline_host
                  (default_config (erc1155_client "")) "0xabc" "" "")
           (empty_world 0 [])).
Defined.

(** ** Collection name and symbol *)

Lemma collection_metadata_settles host config u r t :
  settles (Uri.fetchJson host u (uriOptions config)) r t ->
  settles (collection_metadata host config u)
    (collection_metadata_result r) t.
Proof.
  intros H w. unfold collection_metadata, bind at 1. rewrite H.
  destruct r as [doc|e]; [|reflexivity].
  destruct doc; reflexivity.
Qed.

(** One pass of [updateCollection], with the document it fetched. *)
Lemma updateCollection_document host config address :
  let normalized := Js.toLowerCase address in
  let c := client config in
  let contractUri := contractURI c normalized in
  exists rj tj events,
    settles (Uri.fetchJson host (default "" contractUri) (uriOptions config))
      rj tj
    /\ forall w,
        updateCollection host config address w
        = upsert_collection normalized
            (collection_row (probe_standard c normalized)
               (name c normalized) (symbol c normalized)
               (owner c normalized) contractUri
               (kept_collection_metadata contractUri
                  (collection_metadata_result rj))
               (clock w))
            (add_trace events w).
Proof.
  intros normalized c contractUri.
  destruct (io_fetchJson host (default "" contractUri) (uriOptions config))
    as (rj & tj & Hj).
  assert (Hm : exists t3,
             settles (if truthy contractUri
                      then catch (collection_metadata host config
                                    (default "" contractUri))
                             (fun _ => ret no_collection_metadata)
                      else ret no_collection_metadata)
               (Ok (kept_collection_metadata contractUri
                      (collection_metadata_result rj))) t3).
  { unfold kept_collection_metadata. destruct (truthy contractUri).
    - eexists. apply settles_or_default, collection_metadata_settles, Hj.
    - eexists. apply settles_ret. }
  destruct Hm as (t3 & Hm).
  exists rj, tj. eexists. split; [exact Hj|].
  intros w. unfold updateCollection. fold normalized.
  do 4 (unfold bind at 1; rewrite settles_read_collection).
  unfold bind at 1. rewrite settles_detectStandard.
  fold c. fold contractUri.
  unfold bind at 1. rewrite Hm.
  unfold bind at 1. unfold Date_now.
  rewrite !add_trace_app. reflexivity.
Qed.

(** C8. The stored name is the value of the on-chain [name()] whenever
    that read succeeded, whatever the contract document says.  Only when
    the read was absent is it the [name] member of the document that was
    fetched from the contract URI, if the document has one that is not
    null; and it is absent when there is no contract URI or its document
    could not be fetched or parsed.  The document fetched is the one
    stored.  The same holds of the symbol. *)
Theorem updateCollection_prefers_onchain_name
    (host : Host) (config : ArtifactPluginConfig) (address : string)
    (w w' : World)
    (Hok : updateCollection host config address w = (Ok tt, w')) :
  let normalized := Js.toLowerCase address in
  let c := client config in
  exists r,
    artifact_collection w' !! normalized = Some r
    /\ Collection.name r
       = match name c normalized with
         | Some onchain => Some (Json.Str onchain)
         | None =>
             Json.nullish (optional_property (Collection.data r) "name")
         end
    /\ Collection.symbol r
       = match symbol c normalized with
         | Some onchain => Some (Json.Str onchain)
         | None =>
             Json.nullish (optional_property (Collection.data r) "symbol")
         end
    /\ (forall u doc t,
          contractURI c normalized = Some u -> u <> "" ->
          settles (Uri.fetchJson host u (uriOptions config)) (Ok doc) t ->
          Collection.data r = nullable doc
          /\ (name c normalized = None ->
              Collection.name r
              = Json.nullish (optional_property (Some doc) "name"))
          /\ (symbol c normalized = None ->
              Collection.symbol r
              = Json.nullish (optional_property (Some doc) "symbol")))
    /\ (forall u e t,
          contractURI c normalized = Some u ->
          settles (Uri.fetchJson host u (uriOptions config)) (Throw e) t ->
          Collection.data r = None
          /\ (name c normalized = None -> Collection.name r = None)
          /\ (symbol c normalized = None -> Collection.symbol r = None))
    /\ (truthy (contractURI c normalized) = false ->
        Collection.data r = None
        /\ (name c normalized = None -> Collection.name r = None)
        /\ (symbol c normalized = None -> Collection.symbol r = None)).
Proof.
  intros normalized c.
  destruct (updateCollection_document host config address)
    as (rj & tj & events & Hj & Hrun).
  fold normalized in Hj, Hrun. fold c in Hj, Hrun.
  rewrite Hrun, upsert_collection_run in Hok. cbv zeta in Hok.
  destruct (store_fails (add_trace events w)); [discriminate Hok|].
  injection Hok as <-.
  eexists. split; [apply lookup_insert_eq|].
  match goal with
  | |- context [upserted_collection ?a ?row ?tbl] =>
      destruct (upserted_collection_fields a row tbl)
        as (_ & Fn & Fs & _ & _ & _ & _ & Fd & _)
  end.
  rewrite Fn, Fs, Fd. clear Fn Fs Fd.
  cbn [collection_row Collection.row_name Collection.row_symbol
       Collection.row_data].
  split; [reflexivity|]. split; [reflexivity|].
  split; [|split].
  - intros u doc t Hu Hne Hdoc.
    rewrite Hu in Hj |- *. cbn [default] in Hj.
    rewrite (settles_unique _ _ _ _ _ w Hj Hdoc).
    assert (Ht : truthy (Some u) = true)
      by (destruct u; [congruence|reflexivity]).
    unfold kept_collection_metadata. rewrite Ht.
    destruct doc; cbn; (split; [reflexivity|]);
      split; intros ->; reflexivity.
  - intros u e t Hu Hfail.
    rewrite Hu in Hj |- *. cbn [default] in Hj.
    rewrite (settles_unique _ _ _ _ _ w Hj Hfail).
    unfold kept_collection_metadata.
    destruct (truthy (Some u)); cbn; (split; [reflexivity|]);
      split; intros ->; reflexivity.
  - intros Ht. unfold kept_collection_metadata. rewrite Ht. cbn.
    split; [reflexivity|]. split; intros ->; reflexivity.
Qed.

Lemma updateCollection_prefers_onchain_name_witness :
  exists w' r,
    updateCollection document_host (default_config named_client) "0xABC"
      (empty_world 1700000000123 [])
    = (Ok tt, w')
    /\ artifact_collection w' !! "0xabc" = Some r
    /\ Collection.name r = Some (Json.Str "Chain")
    /\ Collection.symbol r = Some (Json.Str "DOC")
    /\ Collection.data r
       = Some (Json.Object [("name", Json.Str "Doc");
                            ("symbol", Json.Str "DOC")]).
Proof.
  destruct (updateCollection_outcome document_host
              (default_config named_client) "0xABC") as (md & ev & Hrun).
  pose proof (Hrun (empty_world 1700000000123 [])) as E.
  cbv zeta in E. change (store_fails (empty_world 1700000000123 []))
    with false in E. cbv iota in E.
  destruct (updateCollection_prefers_onchain_name _ _ _ _ _ E)
    as (r & Hr & Hn & _ & Hdoc & _).
  assert (Hfetch : settles
                     (Uri.fetchJson document_host "https://example.com/c.json"
                        (uriOptions (default_config named_client)))
                     (Ok (Json.Object [("name", Json.Str "Doc");
                                       ("symbol", Json.Str "DOC")]))
                     [HttpGet "https://example.com/c.json"])
    by (intros v; reflexivity).
  destruct (Hdoc "https://example.com/c.json" _ _ eq_refl
              ltac:(discriminate) Hfetch) as (Hd & _ & Hs).
  eexists _, r. split; [exact E|]. split; [exact Hr|].
  split; [exact Hn|]. split; [exact (Hs eq_refl)|exact Hd].
Defined.

(** ** What a refresh writes *)

Lemma upserted_token_values address tokenId row table :
  let r := upserted_token address tokenId row table in
  r = Token.values (Token.collection r) (Token.tokenId r) row.
Proof. unfold upserted_token. destruct (table !! (address, tokenId)); reflexivity. Qed.

Lemma upserted_collection_values normalized row table :
  let r := upserted_collection normalized row table in
  r = Collection.values (Collection.collection r) row.
Proof. unfold upserted_collection. destruct (table !! normalized); reflexivity. Qed.

Lemma token_written_upsert address tokenId row events w :
  Token.row_updatedAt row = clock w / 1000 ->
  token_written (address, tokenId) row w
    (with_artifact_token
       (<[(address, tokenId) :=
            upserted_token address tokenId row (artifact_token w)]>
          (artifact_token w))
       (statement_sent (Upsert "artifact_token" [address; tokenId])
          (add_trace events w))).
Proof.
  intros Ht. eexists. split; [apply lookup_insert_eq|].
  split; [apply upserted_token_values|].
  unfold upserted_token.
  split; [|split; [|split; [|split]]].
  - intros stored Hs. rewrite Hs. split; reflexivity.
  - intros Hs. rewrite Hs. split; reflexivity.
  - destruct (artifact_token w !! (address, tokenId)); exact Ht.
  - intros k Hk. simpl. apply lookup_insert_ne. congruence.
  - reflexivity.
Qed.

Lemma collection_written_upsert normalized row events w :
  Collection.row_updatedAt row = clock w / 1000 ->
  collection_written normalized row w
    (with_artifact_collection
       (<[normalized :=
            upserted_collection normalized row (artifact_collection w)]>
          (artifact_collection w))
       (statement_sent (Upsert "artifact_collection" [normalized])
          (add_trace events w))).
Proof.
  intros Ht. eexists. split; [apply lookup_insert_eq|].
  split; [apply upserted_collection_values|].
  unfold upserted_collection.
  split; [|split; [|split; [|split]]].
  - intros stored Hs. rewrite Hs. reflexivity.
  - intros Hs. rewrite Hs. reflexivity.
  - destruct (artifact_collection w !! normalized); exact Ht.
  - intros k Hk. simpl. apply lookup_insert_ne. congruence.
  - reflexivity.
Qed.

(** C9. A successful refresh of a token replaces every non-key field of
    the record by what this pass resolved, absent fields included, keeps
    the identity fields of the record that was there, and stamps it with
    the clock in seconds; the fields written do not depend on what the
    store held, so that any other successful refresh against the same
    chain and network writes the same fields apart from the time.  The
    same holds of a collection. *)
Theorem refresh_replaces_non_key_fields
    (host : Host) (config : ArtifactPluginConfig)
    (collection tokenId address : string) :
  (exists row, forall w w',
      updateToken host config collection tokenId w = (Ok tt, w') ->
      token_written (Js.toLowerCase collection, tokenId)
        (token_row_at (clock w / 1000) row) w w')
  /\ (exists row, forall w w',
        updateCollection host config address w = (Ok tt, w') ->
        collection_written (Js.toLowerCase address)
          (collection_row_at (clock w / 1000) row) w w').
Proof.
  split.
  - destruct (Js.BigInt tokenId) as [n|] eqn:Hn.
    + destruct (updateToken_outcome host config collection tokenId n Hn)
        as (ru & tu & rm & tm & events & _ & _ & Hrun).
      eexists (token_row _ _ _ 0). intros w w' H.
      rewrite Hrun in H. destruct (store_fails w); [discriminate H|].
      injection H as <-.
      apply token_written_upsert. reflexivity.
    + exists (token_row unknown None no_token_metadata 0). intros w w' H.
      rewrite updateToken_bad_id in H by exact Hn. discriminate H.
  - destruct (updateCollection_outcome host config address)
      as (md & events & Hrun).
    eexists (collection_row _ _ _ _ _ _ 0). intros w w' H.
    rewrite Hrun in H. destruct (store_fails w); [discriminate H|].
    injection H as <-.
    apply collection_written_upsert. reflexivity.
Qed.

Lemma refresh_replaces_non_key_fields_witness :
  exists w' r,
    updateToken offline_host (default_config offline_client) "0xAbC" "42"
      (empty_world 1700000000123 [])
    = (Ok tt, w')
    /\ artifact_token w' !! ("0xabc", "42") = Some r
    /\ Token.updatedAt r = 1700000000.
Proof.
  destruct (refresh_replaces_non_key_fields offline_host
              (default_config offline_client) "0xAbC" "42" "")
    as [(row & Hrow) _].
  destruct (updateToken_outcome offline_host (default_config offline_client)
              "0xAbC" "42" 42 eq_refl)
    as (ru & tu & rm & tm & events & _ & _ & Hrun).
  pose proof (Hrun (empty_world 1700000000123 [])) as E.
  cbv zeta in E. change (store_fails (empty_world 1700000000123 []))
    with false in E. cbv iota in E.
  destruct (Hrow _ _ E) as (r & Hr & _ & _ & _ & Ht & _).
  eexists _, r. split; [exact E|]. split; [exact Hr|exact Ht].
Defined.

(** ** The routes *)

Lemma isFresh_total config timestamp w :
  exists b, isFresh config timestamp w = (Ok b, w).
Proof.
  unfold isFresh. destruct timestamp as [[| |]|]; eexists; reflexivity.
Qed.

Lemma token_is_fresh_total config cached w :
  exists b, token_is_fresh config cached w = (Ok b, w).
Proof.
  destruct cached; [apply isFresh_total|]. eexists. reflexivity.
Qed.

Lemma collection_is_fresh_total config cached w :
  exists b, collection_is_fresh config cached w = (Ok b, w).
Proof.
  destruct cached; [apply isFresh_total|]. eexists. reflexivity.
Qed.

(** The two decisions hold of any handler written as the four routes are. *)
Lemma read_handler_decision {R} (read : M (option R))
    (is_fresh : option R -> M bool) (refresh : M unit)
    (respond : option R -> HttpResponse) (failure : HttpResponse) :
  (forall cached w, exists b, is_fresh cached w = (Ok b, w)) ->
  (forall x, respond x <> failure) ->
  read_with_fallback read is_fresh refresh respond failure
    (cached <- read;;
     fresh <- is_fresh cached;;
     if fresh : bool then ret (respond cached)
     else
       catch (refresh;;
              again <- read;;
              ret (respond again))
         (fun _ =>
            match cached with
            | Some _ => ret (respond cached)
            | None => ret failure
            end)).
Proof.
  intros Hfresh Hresp w cached w1 Hread fallback.
  assert (Hfb : forall v, (match cached with
                           | Some _ => ret (respond cached)
                           | None => ret failure
                           end) v = (Ok fallback, v)).
  { intros v. unfold fallback. destruct cached; reflexivity. }
  split; [|split].
  - intros c Hc Hf. unfold bind at 1. rewrite Hread.
    unfold bind at 1. rewrite Hf. reflexivity.
  - intros Hf r w2 Hr. destruct r as [[]|e].
    + intros again w3 Ha. unfold bind at 1. rewrite Hread.
      unfold bind at 1. rewrite Hf. unfold catch, bind. rewrite Hr, Ha.
      destruct again; [reflexivity|apply Hfb].
    + unfold bind at 1. rewrite Hread.
      unfold bind at 1. rewrite Hf. unfold catch, bind. rewrite Hr.
      apply Hfb.
  - intros w' H. unfold bind at 1 in H. rewrite Hread in H.
    unfold bind at 1 in H.
    destruct (Hfresh cached w1) as (b & Hb). rewrite Hb in H.
    destruct b.
    + unfold ret in H. injection H as H _. destruct (Hresp _ H).
    + unfold catch, bind in H.
      destruct (refresh w1) as [[[]|e] w2].
      * destruct (read w2) as [[again|e'] w3].
        -- unfold ret in H. injection H as H _. destruct (Hresp _ H).
        -- destruct cached; [|reflexivity].
           unfold ret in H. injection H as H _. destruct (Hresp _ H).
      * destruct cached; [|reflexivity].
        unfold ret in H. injection H as H _. destruct (Hresp _ H).
Qed.

Lemma refresh_handler_decision {R} (read : M (option R)) (refresh : M unit)
    (respond : option R -> HttpResponse) (failure : HttpResponse) :
  (forall x, respond x <> failure) ->
  refresh_with_fallback read refresh respond failure
    (catch (refresh;;
            again <- read;;
            ret (respond again))
       (fun _ =>
          cached <- read;;
          match cached with
          | Some _ => ret (respond cached)
          | None => ret failure
          end)).
Proof.
  intros Hresp w r w1 Hr fallback.
  assert (Hfb : forall v cached w2,
             read v = (Ok cached, w2) ->
             (cached <- read;;
              match cached with
              | Some _ => ret (respond cached)
              | None => ret failure
              end) v = (Ok (fallback cached), w2)).
  { intros v cached w2 Hv. unfold bind. rewrite Hv.
    unfold fallback. destruct cached; reflexivity. }
  assert (Hinv : forall v w',
             (cached <- read;;
              match cached with
              | Some _ => ret (respond cached)
              | None => ret failure
              end) v = (Ok failure, w') ->
             read v = (Ok None, w')).
  { intros v w' H. unfold bind in H.
    destruct (read v) as [[[c|]|e] w2]; unfold ret in H.
    - injection H as H _. destruct (Hresp _ H).
    - congruence.
    - discriminate H. }
  destruct r as [[]|e].
  - split.
    + intros fetched w2 Hf. unfold catch, bind. rewrite Hr, Hf. reflexivity.
    + intros w' H. unfold catch, bind at 1 in H. rewrite Hr in H.
      unfold bind at 1 in H.
      destruct (read w1) as [[again|e'] w2] eqn:Ha.
      * unfold ret in H. injection H as H _. destruct (Hresp _ H).
      * exists e', w2. split; [reflexivity|]. apply Hinv, H.
  - split.
    + intros cached w2 Hc. unfold catch, bind at 1. rewrite Hr.
      apply Hfb, Hc.
    + intros w' H. unfold catch, bind at 1 in H. rewrite Hr in H.
      apply Hinv, H.
Qed.

(** C1. Each of the two read routes takes the decision of a read request
    and each of the two refresh routes that of a forced refresh, where a
    record is fresh when it is there and [isFresh] accepts its time, and
    where a look-up sends one select to the store and nothing else. *)
Theorem routes_fall_back_to_cached
    (host : Host) (config : ArtifactPluginConfig)
    (collection tokenId address : string) :
  read_with_fallback (fetchToken collection tokenId)
    (token_is_fresh config)
    (updateToken host config collection tokenId)
    (fun token => c_json (TokenBody token)) token_failure
    (get_token host config collection tokenId)
  /\ refresh_with_fallback (fetchToken collection tokenId)
       (updateToken host config collection tokenId)
       (fun token => c_json (TokenBody token)) token_failure
       (post_token host config collection tokenId)
  /\ read_with_fallback (fetchCollection address)
       (collection_is_fresh config)
       (updateCollection host config address)
       (fun c => c_json (CollectionBody c)) collection_failure
       (get_collection host config address)
  /\ refresh_with_fallback (fetchCollection address)
       (updateCollection host config address)
       (fun c => c_json (CollectionBody c)) collection_failure
       (post_collection host config address)
  /\ (forall c,
        token_is_fresh config (Some c)
        = isFresh config (Some (Token.updatedAt c)))
  /\ (forall c,
        collection_is_fresh config (Some c)
        = isFresh config (Some (Collection.updatedAt c)))
  /\ (forall w,
        token_is_fresh config None w = (Ok false, w)
        /\ collection_is_fresh config None w = (Ok false, w))
  /\ (forall w,
        (fetchToken collection tokenId w).2
        = statement_sent
            (Select "artifact_token" [Js.toLowerCase collection; tokenId]) w
        /\ (fetchCollection address w).2
           = statement_sent
               (Select "artifact_collection" [Js.toLowerCase address]) w).
Proof.
  split; [|split; [|split; [|split]]].
  - apply read_handler_decision;
      [apply token_is_fresh_total | discriminate].
  - apply refresh_handler_decision. discriminate.
  - apply read_handler_decision;
      [apply collection_is_fresh_total | discriminate].
  - apply refresh_handler_decision. discriminate.
  - repeat split.
    + rewrite fetchToken_run. destruct (store_fails w); reflexivity.
    + rewrite fetchCollection_run. destruct (store_fails w); reflexivity.
Qed.

Lemma routes_fall_back_to_cached_witness :
  exists w',
    get_token offline_host (default_config offline_client) "0xABC" "42"
      (stale_world [false; true])
    = (Ok (c_json (TokenBody (Some stale_token))), w').
Proof.
  destruct (routes_fall_back_to_cached offline_host
              (default_config offline_client) "0xABC" "42" "")
    as (Hget & _).
  set (w := stale_world [false; true]).
  set (w1 := statement_sent (Select "artifact_token" ["0xabc"; "42"]) w).
  assert (Hread : fetchToken "0xABC" "42" w = (Ok (Some stale_token), w1)).
  { rewrite fetchToken_run. reflexivity. }
  destruct (Hget w _ w1 Hread) as (_ & Hstale & _).
  destruct (updateToken_outcome offline_host (default_config offline_client)
              "0xABC" "42" 42 eq_refl)
    as (ru & tu & rm & tm & events & _ & _ & Hrun).
  pose proof (Hrun w1) as E. cbv zeta in E.
  change (store_fails w1) with true in E. cbv iota in E.
  eexists. exact (Hstale eq_refl _ _ E).
Defined.

(** ** Inline documents *)

Lemma startsWith_longer (s p q : string) :
  Js.startsWith s (p ++ q) = true -> Js.startsWith s p = true.
Proof.
  revert s. induction p as [|c p IH]; intros s H; [reflexivity|].
  cbn [String.append Js.startsWith] in *.
  destruct s as [|d s]; [discriminate H|].
  destruct (Ascii.eqb c d); [apply IH, H|discriminate H].
Qed.

(** An inline JSON document is decoded without any call: the world is left
    as it was. *)
Lemma fetchJson_inline_no_call host u options w :
  Js.startsWith u "data:application/json" = true ->
  (Uri.fetchJson host u options w).2 = w.
Proof.
  intros H.
  assert (Hd : Js.startsWith u "data:" = true)
    by (apply (startsWith_longer u "data:" "application/json"), H).
  assert (Hr : Uri.resolveUri (Some u) options = u).
  { unfold Uri.resolveUri. destruct u; [reflexivity|]. rewrite Hd.
    reflexivity. }
  unfold Uri.fetchJson. rewrite Hr, H.
  destruct (Js.startsWith u "data:application/json;base64,");
    unfold bind, or_throw;
    repeat match goal with
           | |- context [match ?x with Some _ => _ | None => _ end] =>
               destruct x; unfold ret, throw; cbn [snd fst]
           end; reflexivity.
Qed.

(** The base64 example of the specification: the payload is decoded to the
    text of the document, which is handed to the parser. *)
Example fetchJson_base64_example host options w :
  Js.atob "eyJhIjoxfQ==" = Some document_a1
  /\ Uri.fetchJson host "data:application/json;base64,eyJhIjoxfQ==" options w
     = (match JSON_parse host document_a1 with
        | Some v => Ok v
        | None => Throw SyntaxError
        end, w).
Proof.
  assert (Ha : Js.atob "eyJhIjoxfQ==" = Some document_a1)
    by (vm_compute; reflexivity).
  split; [exact Ha|].
  unfold Uri.fetchJson, bind. cbn. rewrite Ha. cbn.
  destruct (JSON_parse host document_a1); reflexivity.
Qed.

(** C5, at an input where the code departs from it.  The data URI below
    carries the percent-encoded document with the members a = 1 and b = 2,
    its comma left as it is.  The payload is taken with [split(",")[1]],
    so the decoder receives the text up to the second comma only, which is
    the encoding of an unfinished document, and not the payload. *)
Theorem fetchJson_inline_payload_cut_at_comma
    (host : Host) (options : option Uri.ResolveUriOptions) (w : World) :
  Uri.fetchJson host "data:application/json,%7B%22a%22:1,%22b%22:2%7D"
    options w
  = (match decodeURIComponent host "%7B%22a%22:1" with
     | Some jsonStr =>
         match JSON_parse host jsonStr with
         | Some v => Ok v
         | None => Throw SyntaxError
         end
     | None => Throw URIError
     end, w).
Proof.
  unfold Uri.fetchJson, bind. cbn.
  destruct (decodeURIComponent host "%7B%22a%22:1") as [jsonStr|];
    [|reflexivity].
  cbn. destruct (JSON_parse host jsonStr); reflexivity.
Qed.

(** ** The tables stay keyed by their primary keys *)

Lemma empty_world_consistent now faults : store_consistent (empty_world now faults).
Proof. split; intros k r H; simpl in H; rewrite lookup_empty in H; discriminate H. Qed.

Lemma upserted_token_key address tokenId row (w : World) :
  store_consistent w ->
  let r := upserted_token address tokenId row (artifact_token w) in
  (Token.collection r, Token.tokenId r) = (address, tokenId).
Proof.
  intros [Ht _]. unfold upserted_token.
  destruct (artifact_token w !! (address, tokenId)) as [stored|] eqn:E;
    [|reflexivity].
  apply (Ht _ _ E).
Qed.

Lemma upserted_collection_key normalized row (w : World) :
  store_consistent w ->
  Collection.collection
    (upserted_collection normalized row (artifact_collection w))
  = normalized.
Proof.
  intros [_ Hc]. unfold upserted_collection.
  destruct (artifact_collection w !! normalized) as [stored|] eqn:E;
    [|reflexivity].
  apply (Hc _ _ E).
Qed.

Lemma updateToken_consistent host config collection tokenId w r w' :
  store_consistent w ->
  updateToken host config collection tokenId w = (r, w') ->
  store_consistent w'.
Proof.
  intros Hw H. destruct (Js.BigInt tokenId) as [n|] eqn:Hn.
  - destruct (updateToken_outcome host config collection tokenId n Hn)
      as (ru & tu & rm & tm & events & _ & _ & Hrun).
    rewrite Hrun in H. destruct (store_fails w); injection H as _ <-.
    + exact Hw.
    + split; [|apply Hw]. intros k rec Hk. simpl in Hk.
      destruct (decide ((Js.toLowerCase collection, tokenId) = k))
        as [<-|Hne].
      * rewrite lookup_insert_eq in Hk. injection Hk as <-.
        apply upserted_token_key, Hw.
      * rewrite lookup_insert_ne in Hk by exact Hne.
        apply (proj1 Hw _ _ Hk).
  - rewrite updateToken_bad_id in H by exact Hn. injection H as _ <-.
    exact Hw.
Qed.

Lemma updateCollection_consistent host config address w r w' :
  store_consistent w ->
  updateCollection host config address w = (r, w') ->
  store_consistent w'.
Proof.
  intros Hw H.
  destruct (updateCollection_outcome host config address)
    as (md & events & Hrun).
  rewrite Hrun in H. destruct (store_fails w); injection H as _ <-.
  - exact Hw.
  - split; [apply Hw|]. intros k rec Hk. simpl in Hk.
    destruct (decide (Js.toLowerCase address = k)) as [<-|Hne].
    + rewrite lookup_insert_eq in Hk. injection Hk as <-.
      apply upserted_collection_key, Hw.
    + rewrite lookup_insert_ne in Hk by exact Hne.
      apply (proj2 Hw _ _ Hk).
Qed.

(** In such a store the record found by [fetchToken] has the key columns
    that the select asked for. *)
Lemma fetchToken_key_columns collection tokenId w r w' :
  store_consistent w ->
  fetchToken collection tokenId w = (Ok (Some r), w') ->
  Token.collection r = Js.toLowerCase collection
  /\ Token.tokenId r = tokenId.
Proof.
  intros [Ht _] H. rewrite fetchToken_run in H.
  destruct (store_fails w); [discriminate H|].
  injection H as H _. apply Ht in H. injection H as -> ->.
  split; reflexivity.
Qed.

(** * Further properties of the code *)

(** ** The steps of a token refresh, call by call *)

Lemma fetchTokenUri_settles config address tokenId standard :
  settles (fetchTokenUri config address tokenId standard)
    (token_uri_result (client config) address tokenId standard)
    [ReadContract address (uri_function standard) [Js.toString16 tokenId]].
Proof.
  intros w. unfold fetchTokenUri, token_uri_result, uri_read, bind, emit.
  destruct standard;
    match goal with
    | |- context [or_throw _ ?x] => destruct x
    end; reflexivity.
Qed.

Lemma token_metadata_settles host config u r t :
  settles (Uri.fetchJson host u (uriOptions config)) r t ->
  settles (token_metadata host config u) (token_metadata_result r) t.
Proof.
  intros H w. unfold token_metadata, bind at 1. rewrite H.
  destruct r as [doc|e]; [|reflexivity].
  destruct doc; reflexivity.
Qed.

(** One pass of [updateToken] with every call named: the probes, the URI
    read, then the calls of the document fetch when there is a URI. *)
Lemma updateToken_calls host config collection tokenId n :
  Js.BigInt tokenId = Some n ->
  let address := Js.toLowerCase collection in
  let std := probe_standard (client config) address in
  let tokenUri := kept_uri (token_uri_result (client config) address n std) in
  exists rj tj,
    settles (Uri.fetchJson host (default "" tokenUri) (uriOptions config))
      rj tj
    /\ forall w,
        updateToken host config collection tokenId w
        = upsert_token address tokenId
            (token_row std tokenUri
               (kept_metadata tokenUri (token_metadata_result rj)) (clock w))
            (add_trace
               (probe_events (client config) address
                ++ [ReadContract address (uri_function std)
                      [Js.toString16 n]]
                ++ (if truthy tokenUri then tj else []))
               w).
Proof.
  intros Hn address std tokenUri.
  destruct (io_fetchJson host (default "" tokenUri) (uriOptions config))
    as (rj & tj & Hj).
  exists rj, tj. split; [exact Hj|]. intros w.
  pose proof (settles_or_default _ None _ _
                (settles_some _ _ _
                   (fetchTokenUri_settles config address n std))) as Hu.
  unfold updateToken. fold address. rewrite Hn.
  unfold bind at 1. simpl or_throw. unfold ret at 1.
  unfold bind at 1. rewrite settles_detectStandard. fold std.
  unfold bind at 1. rewrite Hu.
  replace (match match token_uri_result (client config) address n std with
                 | Ok v => Ok (Some v)
                 | Throw e => Throw e
                 end with
           | Ok v => v
           | Throw _ => None
           end) with tokenUri
    by (unfold tokenUri; destruct (token_uri_result _ _ _ _); reflexivity).
  unfold bind at 1.
  destruct (truthy tokenUri) eqn:Ht.
  - rewrite (settles_or_default _ no_token_metadata _ _
               (token_metadata_settles _ _ _ _ _ Hj)).
    unfold bind at 1. unfold Date_now. rewrite !add_trace_app.
    unfold kept_metadata. rewrite Ht. reflexivity.
  - unfold ret at 1. unfold bind at 1. unfold Date_now.
    rewrite !add_trace_app, app_nil_r.
    unfold kept_metadata. rewrite Ht. reflexivity.
Qed.

Lemma updateToken_equation host config collection tokenId n :
  Js.BigInt tokenId = Some n ->
  let address := Js.toLowerCase collection in
  let std := probe_standard (client config) address in
  let tokenUri := kept_uri (token_uri_result (client config) address n std) in
  exists rj tj,
    settles (Uri.fetchJson host (default "" tokenUri) (uriOptions config))
      rj tj
    /\ forall w,
        let row := token_row std tokenUri
                     (kept_metadata tokenUri (token_metadata_result rj))
                     (clock w) in
        let events :=
          (probe_events (client config) address
           ++ [ReadContract address (uri_function std) [Js.toString16 n]]
           ++ (if truthy tokenUri then tj else []))%list in
        let w1 := statement_sent (Upsert "artifact_token" [address; tokenId])
                    (add_trace events w) in
        updateToken host config collection tokenId w
        = if store_fails w then (Throw StoreError, w1)
          else (Ok tt,
                with_artifact_token
                  (<[(address, tokenId) :=
                       upserted_token address tokenId row (artifact_token w)]>
                     (artifact_token w)) w1).
Proof.
  intros Hn address std tokenUri.
  destruct (updateToken_calls host config collection tokenId n Hn)
    as (rj & tj & Hj & Hrun).
  exists rj, tj. split; [exact Hj|]. intros w. cbv zeta.
  rewrite Hrun, upsert_token_run. reflexivity.
Qed.

Lemma add_trace_inj t t' (w : World) : add_trace t w = add_trace t' w -> t = t'.
Proof.
  intros H. apply (f_equal trace) in H. simpl in H.
  apply app_inv_head in H. exact H.
Qed.

Lemma settles_unique_events {A} (m : M A) r t r' t' (w : World) :
  settles m r t -> settles m r' t' -> t = t'.
Proof.
  intros H H'. specialize (H w). rewrite H' in H.
  apply (f_equal snd) in H. simpl in H. symmetry. apply (add_trace_inj _ _ _ H).
Qed.

Lemma healthy_store_fails w : db_faults w = [] -> store_fails w = false.
Proof. intros H. unfold store_fails. rewrite H. reflexivity. Qed.

Lemma get_token_decision host config collection tokenId :
  read_with_fallback (fetchToken collection tokenId)
    (token_is_fresh config)
    (updateToken host config collection tokenId)
    (fun token => c_json (TokenBody token)) token_failure
    (get_token host config collection tokenId).
Proof.
  apply read_handler_decision; [apply token_is_fresh_total | discriminate].
Qed.

Lemma post_token_decision host config collection tokenId :
  refresh_with_fallback (fetchToken collection tokenId)
    (updateToken host config collection tokenId)
    (fun token => c_json (TokenBody token)) token_failure
    (post_token host config collection tokenId).
Proof. apply refresh_handler_decision. discriminate. Qed.

(** ** A document that was fetched *)

(** X1.  When the URI read gives a non-empty URI that is not an inline
    document, the network answers its resolved form with a success and a
    document that is not null, and the store takes the write, the record
    holds the URI as read, the whole document, and the four fields of the
    document under the keys name, description, image and animation_url,
    each absent when the document lacks it or has it null; the one request
    made to the network is for the resolved form. *)
Theorem updateToken_stores_document_fields
    (host : Host) (config : ArtifactPluginConfig)
    (collection tokenId : string) (n : Z) (u : string)
    (resp : Response) (doc : Json.value) (w w' : World)
    (Hn : Js.BigInt tokenId = Some n)
    (Huri : token_uri_result (client config) (Js.toLowerCase collection) n
              (probe_standard (client config) (Js.toLowerCase collection))
            = Ok u)
    (Hne : u <> "")
    (Hnet : Js.startsWith (Uri.resolveUri (Some u) (uriOptions config))
              "data:application/json" = false)
    (Hresp : fetch host (Uri.resolveUri (Some u) (uriOptions config))
             = Some resp)
    (Hsuccess : ok resp = true)
    (Hdoc : json resp = Some doc)
    (Hnn : doc <> Json.Null)
    (Hok : updateToken host config collection tokenId w = (Ok tt, w')) :
  exists r,
    artifact_token w' !! (Js.toLowerCase collection, tokenId) = Some r
    /\ Token.tokenUri r = Some u
    /\ Token.data r = Some doc
    /\ Token.name r = Json.nullish (optional_property (Some doc) "name")
    /\ Token.description r
       = Json.nullish (optional_property (Some doc) "description")
    /\ Token.image r = Json.nullish (optional_property (Some doc) "image")
    /\ Token.animationUrl r
       = Json.nullish (optional_property (Some doc) "animation_url")
    /\ filter (fun e => is_http e) (drop (length (trace w)) (trace w'))
       = [HttpGet (Uri.resolveUri (Some u) (uriOptions config))].
Proof.
  destruct (updateToken_equation host config collection tokenId n Hn)
    as (rj & tj & Hj & Hrun).
  rewrite Huri in Hj, Hrun. cbn [kept_uri default] in Hj, Hrun.
  assert (Ht : truthy (Some u) = true) by (destruct u; [congruence|reflexivity]).
  rewrite Ht in Hrun.
  remember (Uri.resolveUri (Some u) (uriOptions config)) as resolved
    eqn:Hresolved.
  assert (Hfetch : settles (Uri.fetchJson host u (uriOptions config))
                     (Ok doc) [HttpGet resolved]).
  { intros v. unfold Uri.fetchJson. rewrite <- Hresolved.
    destruct (Js.startsWith _ "data:application/json;base64,") eqn:Hb.
    - apply (startsWith_longer _ "data:application/json" ";base64,") in Hb.
      congruence.
    - rewrite Hnet. unfold bind, Uri.do_fetch, bind, emit. rewrite Hresp.
      cbn [or_throw ret]. rewrite Hsuccess. cbn [negb]. rewrite Hdoc.
      reflexivity. }
  assert (Hrj : rj = Ok doc) by exact (settles_unique _ _ _ _ _ w Hj Hfetch).
  assert (Htj : tj = [HttpGet resolved]).
  { exact (settles_unique_events _ _ _ _ _ w Hj Hfetch). }
  subst rj tj.
  assert (Hres : token_metadata_result (Ok doc) = Ok (document_fields doc))
    by (destruct doc; [congruence|reflexivity..]).
  rewrite Hres in Hrun.
  rewrite Hrun in Hok. destruct (store_fails w); [discriminate Hok|].
  injection Hok as <-.
  eexists. split; [apply lookup_insert_eq|].
  match goal with
  | |- context [upserted_token ?a ?t ?row ?tbl] =>
      destruct (upserted_token_fields a t row tbl)
        as (_ & Fu & Fn & Fd & Fi & Fa & Fdata & _)
  end.
  rewrite Fu, Fn, Fd, Fi, Fa, Fdata. clear Fu Fn Fd Fi Fa Fdata.
  unfold kept_metadata. rewrite Ht.
  cbn [token_row Token.row_tokenUri Token.row_name
    Token.row_description Token.row_image Token.row_animationUrl
    Token.row_data document_fields md_name md_description md_image
    md_animationUrl md_data].
  repeat (split; [reflexivity|]).
  cbn [trace statement_sent with_artifact_token add_trace].
  rewrite <- !app_assoc, drop_app_length.
  rewrite !filter_app.
  unfold probe_events.
  destruct (probe_affirms _ _ ERC721_INTERFACE_ID); reflexivity.
Qed.

Lemma updateToken_succeeds host config collection tokenId n w :
  Js.BigInt tokenId = Some n ->
  store_fails w = false ->
  exists w', updateToken host config collection tokenId w = (Ok tt, w').
Proof.
  intros Hn Hf.
  destruct (updateToken_outcome host config collection tokenId n Hn)
    as (ru & tu & rm & tm & events & _ & _ & Hrun).
  eexists. rewrite Hrun, Hf. reflexivity.
Qed.

Lemma updateToken_stores_document_fields_witness :
  exists w' r,
    updateToken (serving_host sample_document)
      (default_config (erc721_client "ipfs://abc")) "0xABC" "7"
      (empty_world 1700000000123 [])
    = (Ok tt, w')
    /\ artifact_token w' !! ("0xabc", "7") = Some r
    /\ Token.tokenUri r = Some "ipfs://abc"
    /\ Token.name r = Some (Json.Str "One")
    /\ Token.description r = None.
Proof.
  destruct (updateToken_succeeds (serving_host sample_document)
              (default_config (erc721_client "ipfs://abc")) "0xABC" "7" 7
              (empty_world 1700000000123 []) eq_refl eq_refl) as (w' & Hok).
  destruct (updateToken_stores_document_fields
              (serving_host sample_document)
              (default_config (erc721_client "ipfs://abc")) "0xABC" "7" 7
              "ipfs://abc"
              {| ok := true; status := 200; json := Some sample_document |}
              sample_document _ _ eq_refl eq_refl ltac:(discriminate)
              eq_refl eq_refl eq_refl eq_refl ltac:(discriminate) Hok)
    as (r & Hr & Hu & _ & Hname & Hd & _).
  exists w', r. repeat split; assumption.
Defined.

(** ** A token without URI *)

(** X2.  When the URI read fails or returns the empty string, the refresh
    makes no request to the network, and the record it writes holds no
    field of a metadata document. *)
Theorem updateToken_without_uri_makes_no_request
    (host : Host) (config : ArtifactPluginConfig)
    (collection tokenId : string) (n : Z) (w : World)
    (Hn : Js.BigInt tokenId = Some n)
    (Hno : let address := Js.toLowerCase collection in
           let std := probe_standard (client config) address in
           uri_read (client config) address n std = None
           \/ uri_read (client config) address n std = Some "") :
  let w' := (updateToken host config collection tokenId w).2 in
  filter (fun e => is_http e) (drop (length (trace w)) (trace w')) = []
  /\ (store_fails w = false ->
      exists r,
        artifact_token w' !! (Js.toLowerCase collection, tokenId) = Some r
        /\ metadata_absent r
        /\ (Token.tokenUri r = None \/ Token.tokenUri r = Some "")).
Proof.
  cbv zeta in Hno.
  destruct (updateToken_equation host config collection tokenId n Hn)
    as (rj & tj & _ & Hrun).
  set (address := Js.toLowerCase collection) in *.
  set (std := probe_standard (client config) address) in *.
  assert (Hk : kept_uri (token_uri_result (client config) address n std) = None
               \/ kept_uri (token_uri_result (client config) address n std)
                  = Some "").
  { unfold token_uri_result. destruct Hno as [-> | ->]; [left; reflexivity|].
    right. destruct std; reflexivity. }
  assert (Ht : truthy (kept_uri (token_uri_result (client config) address n std))
               = false) by (destruct Hk as [-> | ->]; reflexivity).
  rewrite Hrun. cbv zeta. rewrite Ht.
  assert (Hev : filter (fun e => is_http e)
                  (probe_events (client config) address) = []).
  { unfold probe_events.
    destruct (probe_affirms _ _ ERC721_INTERFACE_ID); reflexivity. }
  destruct (store_fails w).
  - split; [|discriminate].
    cbn [snd trace statement_sent add_trace].
    rewrite <- !app_assoc, drop_app_length, !filter_app, Hev. reflexivity.
  - split.
    + cbn [snd trace statement_sent add_trace with_artifact_token].
      rewrite <- !app_assoc, drop_app_length, !filter_app, Hev. reflexivity.
    + intros _. eexists. split; [apply lookup_insert_eq|].
      match goal with
      | |- context [upserted_token ?a ?t ?row ?tbl] =>
          destruct (upserted_token_fields a t row tbl)
            as (_ & Fu & Fn & Fd & Fi & Fa & Fdata & _)
      end.
      unfold metadata_absent. rewrite Fu, Fn, Fd, Fi, Fa, Fdata.
      unfold kept_metadata. rewrite Ht.
      cbn [token_row Token.row_tokenUri Token.row_name Token.row_description
           Token.row_image Token.row_animationUrl Token.row_data
           no_token_metadata md_name md_description md_image md_animationUrl
           md_data].
      split; [repeat split|exact Hk].
Qed.

Lemma updateToken_without_uri_makes_no_request_witness :
  filter (fun e => is_http e)
    (trace (updateToken (serving_host sample_document)
              (default_config (erc721_client "")) "0xABC" "7"
              (empty_world 1700000000123 [])).2)
  = [].
Proof.
  exact (proj1 (updateToken_without_uri_makes_no_request
                  (serving_host sample_document)
                  (default_config (erc721_client "")) "0xABC" "7" 7
                  (empty_world 1700000000123 []) eq_refl
                  (or_intror eq_refl))).
Defined.

Lemma fetchJson_settles host u options :
  exists r, settles (Uri.fetchJson host u options) r (fetchJson_events u options).
Proof.
  unfold Uri.fetchJson, fetchJson_events, Uri.do_fetch. cbv zeta.
  remember (Uri.resolveUri (Some u) options) as resolved.
  destruct (Js.startsWith resolved "data:application/json;base64,") eqn:Hb.
  - rewrite (startsWith_longer _ "data:application/json" ";base64," Hb).
    destruct (Js.atob (Js.index_to_string (Js.split "," resolved) 1))
      as [d|] eqn:Ha.
    + exists (match JSON_parse host d with
              | Some v => Ok v
              | None => Throw SyntaxError
              end).
      intros v. rewrite add_trace_nil. unfold bind. cbn [or_throw ret].
      destruct (JSON_parse host d); reflexivity.
    + exists (Throw InvalidCharacterError). intros v.
      rewrite add_trace_nil. unfold bind. reflexivity.
  - destruct (Js.startsWith resolved "data:application/json").
    + destruct (decodeURIComponent host
                  (Js.index_to_string (Js.split "," resolved) 1))
        as [d|] eqn:Ha.
      * exists (match JSON_parse host d with
                | Some v => Ok v
                | None => Throw SyntaxError
                end).
        intros v. rewrite add_trace_nil. unfold bind. cbn [or_throw ret].
        destruct (JSON_parse host d); reflexivity.
      * exists (Throw URIError). intros v.
        rewrite add_trace_nil. unfold bind. reflexivity.
    + destruct (fetch host resolved) as [resp|] eqn:Hf.
      * destruct (ok resp) eqn:Hok'.
        -- exists (match json resp with
                   | Some v => Ok v
                   | None => Throw SyntaxError
                   end).
           intros v. unfold bind, emit. cbn. rewrite Hok'. cbn.
           destruct (json resp); reflexivity.
        -- exists (Throw (FetchFailed resolved (status resp))).
           intros v. unfold bind, emit. cbn. rewrite Hok'.
           reflexivity.
      * exists (Throw TypeError). intros v. unfold bind, emit.
        reflexivity.
Qed.

Lemma trace_after_upsert t e events w :
  trace (with_artifact_token t (statement_sent e (add_trace events w)))
  = (trace w ++ events ++ [e])%list.
Proof. simpl. rewrite <- app_assoc. reflexivity. Qed.

Lemma probe_events_chain_calls c address :
  filter (fun e => is_chain_call e) (probe_events c address)
  = probe_events c address.
Proof.
  unfold probe_events.
  destruct (probe_affirms _ _ ERC721_INTERFACE_ID); reflexivity.
Qed.

Lemma chain_calls_of_pass c address fn args rest table key :
  filter (fun e => is_chain_call e) rest = [] ->
  filter (fun e => is_chain_call e)
    ((probe_events c address ++ [ReadContract address fn args] ++ rest)
     ++ [Upsert table key])%list
  = (probe_events c address ++ [ReadContract address fn args])%list.
Proof.
  intros Hr.
  rewrite (filter_app _ (probe_events c address ++ _)%list [Upsert table key]).
  rewrite (filter_app _ (probe_events c address) _).
  rewrite (filter_app _ [ReadContract address fn args] rest).
  rewrite probe_events_chain_calls, Hr.
  change (filter (fun e => is_chain_call e) [Upsert table key]) with (@nil Event).
  change (filter (fun e => is_chain_call e) [ReadContract address fn args])
    with [ReadContract address fn args].
  rewrite !app_nil_r. reflexivity.
Qed.

Lemma fetchJson_events_no_chain_call u options :
  filter (fun e => is_chain_call e) (fetchJson_events u options) = [].
Proof.
  unfold fetchJson_events. destruct (Js.startsWith _ _); reflexivity.
Qed.

(** ** Tokens that are not ERC1155 *)

(** X3.  When detection does not answer ERC1155 (the answer is ERC721 or
    unknown), the refresh calls [tokenURI], never [uri], and stores the
    string it returns as it is, with any [{id}] left in place. *)
Theorem updateToken_keeps_tokenURI_verbatim
    (host : Host) (config : ArtifactPluginConfig)
    (collection tokenId : string) (n : Z) (u : string) (w w' : World)
    (Hn : Js.BigInt tokenId = Some n)
    (Hstd : probe_standard (client config) (Js.toLowerCase collection)
            <> erc1155)
    (Huri : tokenURI (client config) (Js.toLowerCase collection) n = Some u)
    (Hok : updateToken host config collection tokenId w = (Ok tt, w')) :
  let address := Js.toLowerCase collection in
  exists r,
    artifact_token w' !! (address, tokenId) = Some r
    /\ Token.tokenUri r = Some u
    /\ filter (fun e => is_chain_call e) (drop (length (trace w)) (trace w'))
       = (probe_events (client config) address
          ++ [ReadContract address "tokenURI" [Js.toString16 n]])%list.
Proof.
  intros address.
  destruct (updateToken_equation host config collection tokenId n Hn)
    as (rj & tj & Hj & Hrun).
  fold address in Hj, Hrun, Hstd, Huri.
  set (std := probe_standard (client config) address) in *.
  assert (Hres : token_uri_result (client config) address n std = Ok u
                 /\ uri_function std = "tokenURI").
  { unfold token_uri_result, uri_read, uri_function.
    destruct std; [|congruence|]; rewrite Huri; split; reflexivity. }
  destruct Hres as [Hres Hfn]. rewrite Hres in Hj. rewrite Hres, Hfn in Hrun.
  cbn [kept_uri default] in Hrun, Hj.
  assert (Htj : filter (fun e => is_chain_call e) tj = []).
  { destruct (fetchJson_settles host u (uriOptions config)) as (r & E).
    rewrite (settles_unique_events _ _ _ _ _ w Hj E).
    apply fetchJson_events_no_chain_call. }
  rewrite Hrun in Hok. destruct (store_fails w); [discriminate Hok|].
  injection Hok as <-.
  eexists. split; [apply lookup_insert_eq|].
  match goal with
  | |- context [upserted_token ?a ?t ?row ?tbl] =>
      destruct (upserted_token_fields a t row tbl) as (_ & Fu & _)
  end.
  rewrite Fu. split; [reflexivity|].
  rewrite trace_after_upsert, drop_app_length.
  apply chain_calls_of_pass.
  destruct u; [reflexivity|exact Htj].
Qed.

Lemma updateToken_keeps_tokenURI_verbatim_witness :
  exists w' r,
    updateToken offline_host
      (default_config (erc721_client "https://x/{id}.json")) "0xABC" "255"
      (empty_world 1700000000123 [])
    = (Ok tt, w')
    /\ artifact_token w' !! ("0xabc", "255") = Some r
    /\ Token.tokenUri r = Some "https://x/{id}.json".
Proof.
  destruct (updateToken_succeeds offline_host
              (default_config (erc721_client "https://x/{id}.json"))
              "0xABC" "255" 255 (empty_world 1700000000123 [])
              eq_refl eq_refl) as (w' & Hok).
  destruct (updateToken_keeps_tokenURI_verbatim offline_host
              (default_config (erc721_client "https://x/{id}.json"))
              "0xABC" "255" 255 "https://x/{id}.json" _ _ eq_refl
              ltac:(vm_compute; discriminate) eq_refl Hok)
    as (r & Hr & Hu & _).
  exists w', r. repeat split; assumption.
Defined.

(** ** Refresh, then look up *)

(** X4.  After a successful refresh of a token, a look-up of the same
    token id under any spelling of the collection with the same lower-case
    form finds the record just written, stamped with the clock of the
    refresh in seconds, as long as the store answers and the table was not
    changed in between.  The same holds of a collection. *)
Theorem fetch_after_refresh
    (host : Host) (config : ArtifactPluginConfig)
    (collection collection' tokenId address address' : string) :
  (forall w w1 w2,
      updateToken host config collection tokenId w = (Ok tt, w1) ->
      Js.toLowerCase collection' = Js.toLowerCase collection ->
      artifact_token w2 = artifact_token w1 ->
      store_fails w2 = false ->
      exists r,
        fetchToken collection' tokenId w2
        = (Ok (Some r),
           statement_sent
             (Select "artifact_token" [Js.toLowerCase collection; tokenId])
             w2)
        /\ Token.updatedAt r = clock w / 1000
        /\ Token.tokenStandard r
           = probe_standard (client config) (Js.toLowerCase collection))
  /\ (forall w w1 w2,
        updateCollection host config address w = (Ok tt, w1) ->
        Js.toLowerCase address' = Js.toLowerCase address ->
        artifact_collection w2 = artifact_collection w1 ->
        store_fails w2 = false ->
        exists r,
          fetchCollection address' w2
          = (Ok (Some r),
             statement_sent
               (Select "artifact_collection" [Js.toLowerCase address]) w2)
          /\ Collection.updatedAt r = clock w / 1000
          /\ Collection.tokenStandard r
             = probe_standard (client config) (Js.toLowerCase address)).
Proof.
  split.
  - intros w w1 w2 Hok Hsame Htable Hs.
    destruct (updateToken_ok_inv _ _ _ _ _ _ Hok) as (n & Hn & Hf).
    destruct (updateToken_outcome host config collection tokenId n Hn)
      as (ru & tu & rm & tm & events & _ & _ & Hrun).
    rewrite Hrun, Hf in Hok. injection Hok as <-.
    rewrite fetchToken_run, Hs, Hsame, Htable. cbv zeta.
    eexists. split.
    + cbn [artifact_token with_artifact_token]. rewrite lookup_insert_eq.
      reflexivity.
    + match goal with
      | |- context [upserted_token ?a ?t ?row ?tbl] =>
          destruct (upserted_token_fields a t row tbl)
            as (Fs & _ & _ & _ & _ & _ & _ & Ft)
      end.
      rewrite Fs, Ft. split; reflexivity.
  - intros w w1 w2 Hok Hsame Htable Hs.
    destruct (updateCollection_outcome host config address)
      as (md & events & Hrun).
    rewrite Hrun in Hok. destruct (store_fails w); [discriminate Hok|].
    injection Hok as <-.
    rewrite fetchCollection_run, Hs, Hsame, Htable. cbv zeta.
    eexists. split.
    + cbn [artifact_collection with_artifact_collection].
      rewrite lookup_insert_eq. reflexivity.
    + match goal with
      | |- context [upserted_collection ?a ?row ?tbl] =>
          destruct (upserted_collection_fields a row tbl)
            as (Fs & _ & _ & _ & _ & _ & _ & _ & Ft)
      end.
      rewrite Fs, Ft. split; reflexivity.
Qed.

Lemma fetch_after_refresh_witness :
  exists w1 r,
    updateToken offline_host (default_config offline_client) "0xAbC" "42"
      (empty_world 1700000000123 [])
    = (Ok tt, w1)
    /\ fetchToken "0XABC" "42" w1
       = (Ok (Some r),
          statement_sent (Select "artifact_token" ["0xabc"; "42"]) w1)
    /\ Token.updatedAt r = 1700000000.
Proof.
  destruct (updateToken_outcome offline_host (default_config offline_client)
              "0xAbC" "42" 42 eq_refl)
    as (ru & tu & rm & tm & events & _ & _ & Hrun).
  pose proof (Hrun (empty_world 1700000000123 [])) as E.
  cbv zeta in E. change (store_fails (empty_world 1700000000123 []))
    with false in E. cbv iota in E.
  destruct (proj1 (fetch_after_refresh offline_host
                     (default_config offline_client) "0xAbC" "0XABC" "42"
                     "" "")
              _ _ _ E eq_refl eq_refl eq_refl) as (r & Hf & Ht & _).
  eexists _, r. split; [exact E|]. split; [exact Hf|exact Ht].
Defined.

(** ** Refreshing twice *)

(** X5.  When a token is refreshed again against the same chain and
    network, with the table as the first refresh left it, the second write
    changes nothing but the time: within the same second it leaves the
    table as it was, and in general the record it writes is the first one
    with the new time, which is not earlier when the clock did not go
    back. *)
Theorem updateToken_twice
    (host : Host) (config : ArtifactPluginConfig)
    (collection tokenId : string) (w w1 w2 w3 : World)
    (Hfirst : updateToken host config collection tokenId w = (Ok tt, w1))
    (Htable : artifact_token w2 = artifact_token w1)
    (Hsecond : updateToken host config collection tokenId w2 = (Ok tt, w3)) :
  let key := (Js.toLowerCase collection, tokenId) in
  exists r1 r3,
    artifact_token w1 !! key = Some r1
    /\ artifact_token w3 !! key = Some r3
    /\ Token.collection r3 = Token.collection r1
    /\ Token.tokenId r3 = Token.tokenId r1
    /\ Token.tokenStandard r3 = Token.tokenStandard r1
    /\ Token.tokenUri r3 = Token.tokenUri r1
    /\ Token.name r3 = Token.name r1
    /\ Token.description r3 = Token.description r1
    /\ Token.image r3 = Token.image r1
    /\ Token.animationUrl r3 = Token.animationUrl r1
    /\ Token.data r3 = Token.data r1
    /\ Token.updatedAt r3 = clock w2 / 1000
    /\ (clock w <= clock w2 -> Token.updatedAt r1 <= Token.updatedAt r3)
    /\ (clock w2 / 1000 = clock w / 1000 ->
        artifact_token w3 = artifact_token w1).
Proof.
  intros key.
  destruct (updateToken_ok_inv _ _ _ _ _ _ Hfirst) as (n & Hn & Hf).
  destruct (updateToken_ok_inv _ _ _ _ _ _ Hsecond) as (n' & _ & Hf2).
  destruct (updateToken_outcome host config collection tokenId n Hn)
    as (ru & tu & rm & tm & events & _ & _ & Hrun).
  rewrite Hrun, Hf in Hfirst. injection Hfirst as <-.
  rewrite Hrun, Hf2 in Hsecond. injection Hsecond as <-.
  subst key.
  cbn [artifact_token with_artifact_token] in Htable |- *.
  rewrite Htable.
  set (std := probe_standard (client config) (Js.toLowerCase collection)).
  set (md := kept_metadata (kept_uri ru) rm).
  set (row1 := token_row std (kept_uri ru) md (clock w)).
  set (row3 := token_row std (kept_uri ru) md (clock w2)).
  set (r1 := upserted_token (Js.toLowerCase collection) tokenId row1
               (artifact_token w)).
  assert (Hr3 : upserted_token (Js.toLowerCase collection) tokenId row3
                  (<[(Js.toLowerCase collection, tokenId) := r1]>
                     (artifact_token w))
                = Token.conflict_update r1 row3).
  { unfold upserted_token. rewrite lookup_insert_eq. reflexivity. }
  rewrite Hr3.
  exists r1, (Token.conflict_update r1 row3).
  split; [apply lookup_insert_eq|]. split; [apply lookup_insert_eq|].
  destruct (upserted_token_fields (Js.toLowerCase collection) tokenId row1
              (artifact_token w))
    as (Fs & Fu & Fn & Fd & Fi & Fa & Fdata & Ft).
  fold r1 in Fs, Fu, Fn, Fd, Fi, Fa, Fdata, Ft.
  rewrite Fs, Fu, Fn, Fd, Fi, Fa, Fdata, Ft.
  repeat (split; [reflexivity|]).
  split.
  - intros Hle. cbn. apply Z.div_le_mono; lia.
  - intros Hsec. rewrite insert_insert_eq. f_equal.
    pose proof (upserted_token_values (Js.toLowerCase collection) tokenId
                  row1 (artifact_token w)) as Hv.
    cbv zeta in Hv. fold r1 in Hv. rewrite Hv at 2.
    unfold Token.conflict_update, Token.values, row3, row1, token_row.
    cbn. rewrite Hsec. reflexivity.
Qed.

Lemma updateToken_twice_witness :
  exists w1 w3,
    updateToken offline_host (default_config offline_client) "0xAbC" "42"
      (empty_world 1700000000123 [])
    = (Ok tt, w1)
    /\ updateToken offline_host (default_config offline_client) "0xAbC" "42"
         w1
       = (Ok tt, w3)
    /\ artifact_token w3 = artifact_token w1.
Proof.
  destruct (updateToken_outcome offline_host (default_config offline_client)
              "0xAbC" "42" 42 eq_refl)
    as (ru & tu & rm & tm & events & _ & _ & Hrun).
  pose proof (Hrun (empty_world 1700000000123 [])) as E.
  cbv zeta in E. change (store_fails (empty_world 1700000000123 []))
    with false in E. cbv iota in E.
  match type of E with
  | _ = (_, ?w1) =>
      pose proof (Hrun w1) as E2; cbv zeta in E2;
      change (store_fails w1) with false in E2; cbv iota in E2
  end.
  destruct (updateToken_twice _ _ _ _ _ _ _ _ E eq_refl E2)
    as (r1 & r3 & _ & _ & _ & _ & _ & _ & _ & _ & _ & _ & _ & _ & _ & Hsame).
  eexists _, _. split; [exact E|]. split; [exact E2|].
  apply Hsame. reflexivity.
Defined.

(** ** Reads through the routes *)

Lemma isFresh_value config w ts :
  ts <> 0 ->
  isFresh config (Some ts) w = (Ok (clock w - ts * 1000 <? ttl_of config), w).
Proof. intros H. unfold isFresh. destruct ts; [congruence| |]; reflexivity. Qed.

Lemma statement_sent_healthy e w :
  db_faults w = [] -> db_faults (statement_sent e w) = [].
Proof. intros H. simpl. rewrite H. reflexivity. Qed.

(** X6.  A read of a key the store does not hold, with a token id that
    [BigInt] accepts and a store that answers, refreshes it and answers
    with status 200 and the record just written, stamped with the clock in
    seconds, whatever the chain and the network answered. *)
Theorem get_token_populates_cache
    (host : Host) (config : ArtifactPluginConfig)
    (collection tokenId : string) (n : Z) (w : World)
    (Hn : Js.BigInt tokenId = Some n)
    (Hhealthy : db_faults w = [])
    (Habsent : artifact_token w !! (Js.toLowerCase collection, tokenId)
               = None) :
  exists r w',
    get_token host config collection tokenId w
    = (Ok (c_json (TokenBody (Some r))), w')
    /\ artifact_token w' !! (Js.toLowerCase collection, tokenId) = Some r
    /\ Token.collection r = Js.toLowerCase collection
    /\ Token.tokenId r = tokenId
    /\ Token.updatedAt r = clock w / 1000.
Proof.
  set (key := (Js.toLowerCase collection, tokenId)) in *.
  set (w1 := statement_sent
               (Select "artifact_token" [Js.toLowerCase collection; tokenId])
               w).
  assert (Hread : fetchToken collection tokenId w = (Ok None, w1)).
  { rewrite fetchToken_run, (healthy_store_fails w Hhealthy). cbv zeta.
    fold key. rewrite Habsent. reflexivity. }
  assert (H1 : db_faults w1 = []) by (apply statement_sent_healthy, Hhealthy).
  destruct (updateToken_outcome host config collection tokenId n Hn)
    as (ru & tu & rm & tm & events & _ & _ & Hrun).
  pose proof (Hrun w1) as Hupd. cbv zeta in Hupd.
  rewrite (healthy_store_fails w1 H1) in Hupd.
  match type of Hupd with
  | _ = (_, ?x) => set (w2 := x) in *
  end.
  assert (H2 : store_fails w2 = false).
  { apply healthy_store_fails. unfold w2. simpl. rewrite Hhealthy.
    reflexivity. }
  pose proof (fetchToken_run collection tokenId w2) as Hread2.
  cbv zeta in Hread2. rewrite H2 in Hread2.
  destruct (get_token_decision host config collection tokenId w None w1 Hread)
    as (_ & Hstale & _).
  specialize (Hstale eq_refl _ _ Hupd). cbv iota in Hstale.
  specialize (Hstale _ _ Hread2). cbv iota beta in Hstale.
  assert (Hlook : artifact_token w2 !! key
                  = Some (Token.values (Js.toLowerCase collection) tokenId
                            (token_row
                               (probe_standard (client config)
                                  (Js.toLowerCase collection))
                               (kept_uri ru)
                               (kept_metadata (kept_uri ru) rm) (clock w)))).
  { unfold w2. cbn [artifact_token with_artifact_token statement_sent
                    add_trace clock]. rewrite lookup_insert_eq.
    unfold upserted_token, w1.
    cbn [artifact_token statement_sent add_trace]. fold key.
    rewrite Habsent. reflexivity. }
  fold key in Hstale. rewrite Hlook in Hstale.
  eexists _, _. split; [exact Hstale|].
  split; [exact Hlook|]. repeat split.
Qed.

Lemma get_token_populates_cache_witness :
  exists r w',
    get_token offline_host (default_config offline_client) "0xAbC" "42"
      (empty_world 1700000000123 [])
    = (Ok (c_json (TokenBody (Some r))), w')
    /\ Token.updatedAt r = 1700000000.
Proof.
  destruct (get_token_populates_cache offline_host
              (default_config offline_client) "0xAbC" "42" 42
              (empty_world 1700000000123 []) eq_refl eq_refl eq_refl)
    as (r & w' & Hget & _ & _ & _ & Ht).
  exists r, w'. split; [exact Hget|exact Ht].
Defined.

(** X7.  After a refresh made when the clock was at least one second past
    the epoch, a read of the same key within the time to live is answered
    from the store with the record written: the handler sends one select
    and calls neither the chain nor the network nor writes. *)
Theorem get_token_after_refresh_is_served_from_store
    (host : Host) (config : ArtifactPluginConfig)
    (collection tokenId : string) (w0 w1 w : World)
    (Hrefresh : updateToken host config collection tokenId w0 = (Ok tt, w1))
    (Hepoch : 1000 <= clock w0)
    (Htable : artifact_token w = artifact_token w1)
    (Hstore : store_fails w = false)
    (Hlive : clock w - clock w0 / 1000 * 1000 < ttl_of config) :
  exists r,
    artifact_token w1 !! (Js.toLowerCase collection, tokenId) = Some r
    /\ Token.updatedAt r = clock w0 / 1000
    /\ get_token host config collection tokenId w
       = (Ok (c_json (TokenBody (Some r))),
          statement_sent
            (Select "artifact_token" [Js.toLowerCase collection; tokenId]) w).
Proof.
  destruct (updateToken_ok_inv _ _ _ _ _ _ Hrefresh) as (n & Hn & Hf).
  destruct (updateToken_outcome host config collection tokenId n Hn)
    as (ru & tu & rm & tm & events & _ & _ & Hrun).
  rewrite Hrun, Hf in Hrefresh. injection Hrefresh as <-.
  cbn [artifact_token with_artifact_token] in Htable |- *.
  match goal with
  | |- context [upserted_token ?a ?t ?row ?tbl] =>
      set (r := upserted_token a t row tbl) in *;
      destruct (upserted_token_fields a t row tbl) as (_&_&_&_&_&_&_& Ft)
  end.
  fold r in Ft. cbn [token_row Token.row_updatedAt] in Ft.
  exists r. split; [apply lookup_insert_eq|]. split; [exact Ft|].
  set (w1 := statement_sent
               (Select "artifact_token" [Js.toLowerCase collection; tokenId])
               w).
  assert (Hread : fetchToken collection tokenId w = (Ok (Some r), w1)).
  { rewrite fetchToken_run, Hstore, Htable, lookup_insert_eq. reflexivity. }
  destruct (get_token_decision host config collection tokenId w _ w1 Hread)
    as (Hfresh & _).
  apply (Hfresh r eq_refl).
  unfold token_is_fresh. rewrite Ft.
  assert (Hnz : clock w0 / 1000 <> 0).
  { intros Hz. apply Z.div_small_iff in Hz; lia. }
  rewrite (isFresh_value config w1 (clock w0 / 1000) Hnz).
  f_equal. f_equal. apply Z.ltb_lt. exact Hlive.
Qed.

Lemma get_token_after_refresh_is_served_from_store_witness :
  exists w1 r,
    updateToken offline_host (default_config offline_client) "0xAbC" "42"
      (empty_world 1700000000123 [])
    = (Ok tt, w1)
    /\ get_token offline_host (default_config offline_client) "0xAbC" "42" w1
       = (Ok (c_json (TokenBody (Some r))),
          statement_sent (Select "artifact_token" ["0xabc"; "42"]) w1).
Proof.
  destruct (updateToken_outcome offline_host (default_config offline_client)
              "0xAbC" "42" 42 eq_refl)
    as (ru & tu & rm & tm & events & _ & _ & Hrun).
  pose proof (Hrun (empty_world 1700000000123 [])) as E.
  cbv zeta in E. change (store_fails (empty_world 1700000000123 []))
    with false in E. cbv iota in E.
  destruct (get_token_after_refresh_is_served_from_store _ _ _ _ _ _ _ E
              ltac:(simpl; lia) eq_refl eq_refl eq_refl)
    as (r & _ & _ & Hget).
  eexists _, r. split; [exact E|exact Hget].
Defined.

(** ** Token ids that are not numbers *)

(** X8.  For a token id that [BigInt] rejects, the refresh throws before
    any call is made, so that both routes, when the store answers, send
    one select and nothing else, and answer with the stored record when
    there is one and with status 500 when there is none. *)
Theorem routes_with_rejected_token_id
    (host : Host) (config : ArtifactPluginConfig)
    (collection tokenId : string) (w : World)
    (Hbad : Js.BigInt tokenId = None)
    (Hstore : store_fails w = false) :
  let cached := artifact_token w !! (Js.toLowerCase collection, tokenId) in
  let answer := match cached with
                | Some _ => c_json (TokenBody cached)
                | None => token_failure
                end in
  let w1 := statement_sent
              (Select "artifact_token" [Js.toLowerCase collection; tokenId])
              w in
  updateToken host config collection tokenId w = (Throw SyntaxError, w)
  /\ get_token host config collection tokenId w = (Ok answer, w1)
  /\ post_token host config collection tokenId w = (Ok answer, w1).
Proof.
  intros cached answer w1.
  assert (Hread : fetchToken collection tokenId w = (Ok cached, w1)).
  { rewrite fetchToken_run, Hstore. reflexivity. }
  split; [apply updateToken_bad_id, Hbad|]. split.
  - destruct (get_token_decision host config collection tokenId w _ w1 Hread)
      as (Hfresh & Hstale & _).
    destruct (token_is_fresh_total config cached w1) as ([|] & Hb).
    + destruct cached as [c|] eqn:Hc.
      * apply (Hfresh c eq_refl Hb).
      * discriminate Hb.
    + apply (Hstale Hb (Throw SyntaxError) w1).
      apply updateToken_bad_id, Hbad.
  - destruct (post_token_decision host config collection tokenId w
                (Throw SyntaxError) w (updateToken_bad_id _ _ _ _ _ Hbad))
      as (Hfall & _).
    apply Hfall, Hread.
Qed.

Lemma routes_with_rejected_token_id_witness :
  get_token offline_host (default_config offline_client) "0xabc" "abc"
    (empty_world 1700000000123 [])
  = (Ok token_failure,
     statement_sent (Select "artifact_token" ["0xabc"; "abc"])
       (empty_world 1700000000123 [])).
Proof.
  exact (proj1 (proj2 (routes_with_rejected_token_id offline_host
                         (default_config offline_client) "0xabc" "abc"
                         (empty_world 1700000000123 []) eq_refl eq_refl))).
Defined.

(** ** A store that fails *)

Lemma store_fails_nth w : store_fails w = nth_fault 0 w.
Proof.
  unfold store_fails, nth_fault. destruct (db_faults w) as [|[] ?]; reflexivity.
Qed.

Lemma nth_fault_statement_sent k e w :
  nth_fault k (statement_sent e w) = nth_fault (S k) w.
Proof.
  unfold nth_fault, statement_sent. cbn [db_faults].
  destruct (db_faults w); [destruct k|]; reflexivity.
Qed.

Lemma nth_fault_add_trace k events w :
  nth_fault k (add_trace events w) = nth_fault k w.
Proof. reflexivity. Qed.

Lemma nth_fault_with_artifact_token k t w :
  nth_fault k (with_artifact_token t w) = nth_fault k w.
Proof. reflexivity. Qed.

(** The whole run of a forced refresh, by what the store does to the
    (at most three) statements it receives. *)
Lemma post_token_outcome host config collection tokenId n :
  Js.BigInt tokenId = Some n ->
  forall w,
    let key := (Js.toLowerCase collection, tokenId) in
    let fallback (cached : option Token.ArtifactToken) :=
      match cached with
      | Some _ => c_json (TokenBody cached)
      | None => token_failure
      end in
    exists written w',
      artifact_token w'
      = (if nth_fault 0 w then artifact_token w
         else <[key := written]> (artifact_token w))
      /\ post_token host config collection tokenId w
         = if nth_fault 0 w
           then if nth_fault 1 w then (Throw StoreError, w')
                else (Ok (fallback (artifact_token w !! key)), w')
           else if nth_fault 1 w
                then if nth_fault 2 w then (Throw StoreError, w')
                     else (Ok (c_json (TokenBody (Some written))), w')
                else (Ok (c_json (TokenBody (Some written))), w').
Proof.
  intros Hn w key fallback.
  destruct (updateToken_outcome host config collection tokenId n Hn)
    as (ru & tu & rm & tm & events & _ & _ & Hrun).
  pose proof (Hrun w) as Hupd. cbv zeta in Hupd.
  rewrite store_fails_nth in Hupd. fold key in Hupd.
  match type of Hupd with
  | context [upserted_token ?a ?i ?row ?tbl] =>
      exists (upserted_token a i row tbl)
  end.
  unfold post_token, catch. unfold bind at 1. rewrite Hupd.
  subst key fallback.
  destruct (nth_fault 0 w) eqn:E0.
  - unfold bind at 1. rewrite fetchToken_run. cbv zeta.
    rewrite store_fails_nth, nth_fault_statement_sent, nth_fault_add_trace.
    destruct (nth_fault 1 w) eqn:E1.
    + eexists. split; cycle 1; reflexivity.
    + eexists. split; cycle 1.
      * cbn [artifact_token statement_sent add_trace].
        destruct (artifact_token w !! (Js.toLowerCase collection, tokenId));
          reflexivity.
      * reflexivity.
  - unfold bind at 1. rewrite fetchToken_run. cbv zeta.
    rewrite store_fails_nth, nth_fault_with_artifact_token,
      nth_fault_statement_sent, nth_fault_add_trace.
    destruct (nth_fault 1 w) eqn:E1.
    + unfold bind at 1. rewrite fetchToken_run. cbv zeta.
      rewrite store_fails_nth, nth_fault_statement_sent,
        nth_fault_with_artifact_token, nth_fault_statement_sent,
        nth_fault_add_trace.
      destruct (nth_fault 2 w) eqn:E2.
      * eexists. split; cycle 1; reflexivity.
      * eexists. split; cycle 1.
        -- cbn [with_artifact_token artifact_token statement_sent add_trace].
           rewrite lookup_insert_eq. reflexivity.
        -- reflexivity.
    + eexists. split; cycle 1.
      * cbn [with_artifact_token artifact_token statement_sent add_trace].
        rewrite lookup_insert_eq. reflexivity.
      * reflexivity.
Qed.

(** X9.  When the store fails the first look-up of a read, the handler
    throws the store's error at once: no refresh is attempted and no
    response is built.  A forced refresh of an accepted token id sends the
    store a write and then look-ups; it throws exactly when the store
    fails the write and the look-up that follows it, or accepts the write
    and fails the two look-ups that follow it.  What it throws is the
    store's error.  In the first case the table is unchanged; in the
    second the write has been made.  When the store fails the write and
    answers the look-up, the handler answers the record that was stored
    before, or the failure when there was none, and the table is
    unchanged. *)
Theorem routes_propagate_store_errors
    (host : Host) (config : ArtifactPluginConfig)
    (collection tokenId : string) (n : Z) (w : World)
    (Hn : Js.BigInt tokenId = Some n) :
  let key := (Js.toLowerCase collection, tokenId) in
  (store_fails w = true ->
   get_token host config collection tokenId w
   = (Throw StoreError,
      statement_sent
        (Select "artifact_token" [Js.toLowerCase collection; tokenId]) w))
  /\ ((exists e w', post_token host config collection tokenId w
                    = (Throw e, w'))
      <-> (nth_fault 0 w = true /\ nth_fault 1 w = true)
          \/ (nth_fault 0 w = false /\ nth_fault 1 w = true
              /\ nth_fault 2 w = true))
  /\ (forall e w', post_token host config collection tokenId w
                   = (Throw e, w') ->
      e = StoreError
      /\ (nth_fault 0 w = true -> artifact_token w' = artifact_token w)
      /\ (nth_fault 0 w = false ->
          exists written,
            artifact_token w' = <[key := written]> (artifact_token w)))
  /\ (forall rest, db_faults w = true :: true :: rest ->
      exists w', post_token host config collection tokenId w
                 = (Throw StoreError, w')
                 /\ artifact_token w' = artifact_token w)
  /\ (forall rest, db_faults w = true :: false :: rest ->
      exists w', post_token host config collection tokenId w
                 = (Ok (match artifact_token w !! key with
                        | Some r => c_json (TokenBody (Some r))
                        | None => token_failure
                        end), w')
                 /\ artifact_token w' = artifact_token w)
  /\ (forall rest, db_faults w = false :: true :: true :: rest ->
      exists w', post_token host config collection tokenId w
                 = (Throw StoreError, w')).
Proof.
  intros key.
  destruct (post_token_outcome host config collection tokenId n Hn w)
    as (written & w1 & Htable & Hpost).
  fold key in Htable, Hpost.
  split; [|split; [|split; [|split; [|split]]]].
  - intros Hf. unfold get_token, bind at 1.
    rewrite fetchToken_run, Hf. reflexivity.
  - rewrite Hpost. split.
    + intros (e & w' & H).
      destruct (nth_fault 0 w), (nth_fault 1 w); try discriminate H;
        [left; split; reflexivity|].
      destruct (nth_fault 2 w); try discriminate H.
      right. repeat split.
    + intros [(-> & ->)|(-> & -> & ->)]; eauto.
  - intros e w' H. rewrite Hpost in H.
    destruct (nth_fault 0 w), (nth_fault 1 w); try discriminate H.
    + injection H as <- <-. split; [reflexivity|].
      split; [intros _; exact Htable|discriminate].
    + destruct (nth_fault 2 w); try discriminate H.
      injection H as <- <-. split; [reflexivity|].
      split; [discriminate|]. intros _. exists written. exact Htable.
  - intros rest Hfaults. exists w1. rewrite Hpost, Htable.
    unfold nth_fault. rewrite Hfaults. split; reflexivity.
  - intros rest Hfaults. exists w1. rewrite Hpost, Htable.
    unfold nth_fault. rewrite Hfaults. cbn [nth]. split; [|reflexivity].
    destruct (artifact_token w !! key); reflexivity.
  - intros rest Hfaults. exists w1. rewrite Hpost.
    unfold nth_fault. rewrite Hfaults. reflexivity.
Qed.

Lemma routes_propagate_store_errors_witness :
  get_token offline_host (default_config offline_client) "0xabc" "42"
    (stale_world [true])
  = (Throw StoreError,
     statement_sent (Select "artifact_token" ["0xabc"; "42"])
       (stale_world [true]))
  /\ (exists w',
        post_token offline_host (default_config offline_client) "0xabc" "42"
          (stale_world [false; true; true])
        = (Throw StoreError, w'))
  /\ ~ (exists e w',
          post_token offline_host (default_config offline_client)
            "0xabc" "42" (stale_world [false; true; false])
          = (Throw e, w')).
Proof.
  split; [|split].
  - exact (proj1 (routes_propagate_store_errors offline_host
                    (default_config offline_client) "0xabc" "42" 42
                    (stale_world [true]) eq_refl) eq_refl).
  - exact (proj2 (proj2 (proj2 (proj2 (proj2
             (routes_propagate_store_errors offline_host
                (default_config offline_client) "0xabc" "42" 42
                (stale_world [false; true; true]) eq_refl)))))
             [] eq_refl).
  - intros H.
    destruct (proj1 (proj1 (proj2
                (routes_propagate_store_errors offline_host
                   (default_config offline_client) "0xabc" "42" 42
                   (stale_world [false; true; false]) eq_refl))) H)
      as [(H0 & _)|(_ & _ & H2)]; discriminate.
Defined.

(** ** The routes keep the tables keyed by their primary keys *)

Section Preserves.

Context {A B : Type} (P : World -> Prop).

Lemma preserves_ret (a : A) : preserves P (ret a).
Proof. intros w r w' Hw H. injection H as _ <-. exact Hw. Qed.

Lemma preserves_bind (m : M A) (k : A -> M B) :
  preserves P m -> (forall a, preserves P (k a)) -> preserves P (bind m k).
Proof.
  intros Hm Hk w r w' Hw H. unfold bind in H.
  destruct (m w) as [[a|e] w1] eqn:E.
  - apply (Hk a w1 r w'); [apply (Hm w _ w1 Hw E)|exact H].
  - injection H as _ <-. apply (Hm w _ w1 Hw E).
Qed.

Lemma preserves_catch (m : M A) (h : Error -> M A) :
  preserves P m -> (forall e, preserves P (h e)) -> preserves P (catch m h).
Proof.
  intros Hm Hh w r w' Hw H. unfold catch in H.
  destruct (m w) as [[a|e] w1] eqn:E.
  - injection H as _ <-. apply (Hm w _ w1 Hw E).
  - apply (Hh e w1 r w'); [apply (Hm w _ w1 Hw E)|exact H].
Qed.

End Preserves.

Lemma preserves_fetchToken collection tokenId :
  preserves store_consistent (fetchToken collection tokenId).
Proof.
  intros w r w' Hw H. rewrite fetchToken_run in H.
  destruct (store_fails w); injection H as _ <-; exact Hw.
Qed.

Lemma preserves_fetchCollection address :
  preserves store_consistent (fetchCollection address).
Proof.
  intros w r w' Hw H. rewrite fetchCollection_run in H.
  destruct (store_fails w); injection H as _ <-; exact Hw.
Qed.

Lemma preserves_isFresh (P : World -> Prop) config timestamp :
  preserves P (isFresh config timestamp).
Proof.
  intros w r w' Hw H.
  destruct (isFresh_total config timestamp w) as (b & Hb).
  rewrite Hb in H. injection H as _ <-. exact Hw.
Qed.

(** X10.  Starting from a store in which every record carries the key it
    is stored under, both updates and the four routes leave such a store,
    however they end: with a response, with a caught failure or with a
    thrown error. *)
Theorem routes_keep_store_consistent
    (host : Host) (config : ArtifactPluginConfig)
    (collection tokenId address : string) :
  preserves store_consistent (updateToken host config collection tokenId)
  /\ preserves store_consistent (updateCollection host config address)
  /\ preserves store_consistent (get_token host config collection tokenId)
  /\ preserves store_consistent (post_token host config collection tokenId)
  /\ preserves store_consistent (get_collection host config address)
  /\ preserves store_consistent (post_collection host config address).
Proof.
  assert (Hu : preserves store_consistent
                 (updateToken host config collection tokenId)).
  { intros w r w' Hw H. exact (updateToken_consistent _ _ _ _ _ _ _ Hw H). }
  assert (Hc : preserves store_consistent
                 (updateCollection host config address)).
  { intros w r w' Hw H. exact (updateCollection_consistent _ _ _ _ _ _ Hw H). }
  pose proof (preserves_fetchToken collection tokenId) as Hft.
  pose proof (preserves_fetchCollection address) as Hfc.
  split; [exact Hu|]. split; [exact Hc|].
  split; [|split; [|split]].
  - unfold get_token. apply preserves_bind; [exact Hft|intros cached].
    apply preserves_bind.
    { destruct cached; [apply preserves_isFresh|apply preserves_ret]. }
    intros [|]; [apply preserves_ret|].
    apply preserves_catch.
    + apply preserves_bind; [exact Hu|intros _].
      apply preserves_bind; [exact Hft|intros; apply preserves_ret].
    + intros _. destruct cached; apply preserves_ret.
  - unfold post_token. apply preserves_catch.
    + apply preserves_bind; [exact Hu|intros _].
      apply preserves_bind; [exact Hft|intros; apply preserves_ret].
    + intros _. apply preserves_bind; [exact Hft|intros cached].
      destruct cached; apply preserves_ret.
  - unfold get_collection. apply preserves_bind; [exact Hfc|intros cached].
    apply preserves_bind.
    { destruct cached; [apply preserves_isFresh|apply preserves_ret]. }
    intros [|]; [apply preserves_ret|].
    apply preserves_catch.
    + apply preserves_bind; [exact Hc|intros _].
      apply preserves_bind; [exact Hfc|intros; apply preserves_ret].
    + intros _. destruct cached; apply preserves_ret.
  - unfold post_collection. apply preserves_catch.
    + apply preserves_bind; [exact Hc|intros _].
      apply preserves_bind; [exact Hfc|intros; apply preserves_ret].
    + intros _. apply preserves_bind; [exact Hfc|intros cached].
      destruct cached; apply preserves_ret.
Qed.

Lemma routes_keep_store_consistent_witness :
  store_consistent
    (get_token offline_host (default_config offline_client) "0xAbC" "42"
       (empty_world 1700000000123 [])).2.
Proof.
  destruct (routes_keep_store_consistent offline_host
              (default_config offline_client) "0xAbC" "42" "")
    as (_ & _ & Hget & _).
  apply (Hget (empty_world 1700000000123 [])
           (get_token offline_host (default_config offline_client)
              "0xAbC" "42" (empty_world 1700000000123 [])).1).
  - apply empty_world_consistent.
  - apply surjective_pairing.
Defined.

(** ** A collection without contract document *)

Lemma updateCollection_calls_without_uri host config address :
  let normalized := Js.toLowerCase address in
  let c := client config in
  truthy (contractURI c normalized) = false ->
  forall w,
    updateCollection host config address w
    = upsert_collection normalized
        (collection_row (probe_standard c normalized)
           (name c normalized) (symbol c normalized) (owner c normalized)
           (contractURI c normalized) no_collection_metadata (clock w))
        (add_trace
           ([ReadContract normalized "name" [];
             ReadContract normalized "symbol" [];
             ReadContract normalized "owner" [];
             ReadContract normalized "contractURI" []]
            ++ probe_events c normalized) w).
Proof.
  intros normalized c Ht w. unfold updateCollection. fold normalized.
  do 4 (unfold bind at 1; rewrite settles_read_collection).
  unfold bind at 1. rewrite settles_detectStandard.
  fold c. rewrite Ht.
  unfold bind at 1. unfold ret at 1.
  unfold bind at 1. unfold Date_now.
  rewrite !add_trace_app. reflexivity.
Qed.

(** X11.  A successful refresh of a collection stores the on-chain owner
    in lower case (absent when the read failed) and the contract URI as
    read.  When there is no contract URI (the read failed or returned the
    empty string), no request is made to the network, the description, the
    image and the document are absent, the name and the symbol are the
    on-chain values or absent, and the chain was called for the name, the
    symbol, the owner and the contract URI, in this order, before the
    probes. *)
Theorem updateCollection_stores_owner_and_chain_fields
    (host : Host) (config : ArtifactPluginConfig) (address : string)
    (w w' : World)
    (Hok : updateCollection host config address w = (Ok tt, w')) :
  let normalized := Js.toLowerCase address in
  let c := client config in
  exists r,
    artifact_collection w' !! normalized = Some r
    /\ Collection.owner r = Js.toLowerCase <$> owner c normalized
    /\ Collection.contractUri r = contractURI c normalized
    /\ (truthy (contractURI c normalized) = false ->
        Collection.description r = None
        /\ Collection.image r = None
        /\ Collection.data r = None
        /\ Collection.name r = Json.Str <$> name c normalized
        /\ Collection.symbol r = Json.Str <$> symbol c normalized
        /\ drop (length (trace w)) (trace w')
           = ([ReadContract normalized "name" [];
               ReadContract normalized "symbol" [];
               ReadContract normalized "owner" [];
               ReadContract normalized "contractURI" []]
              ++ probe_events c normalized
              ++ [Upsert "artifact_collection" [normalized]])%list).
Proof.
  intros normalized c.
  destruct (updateCollection_outcome host config address)
    as (md & events & Hrun).
  pose proof Hok as Hok'.
  rewrite Hrun in Hok. destruct (store_fails w) eqn:Hf; [discriminate Hok|].
  apply (f_equal snd) in Hok. cbn [snd] in Hok.
  fold normalized in Hok. fold c in Hok.
  set (row := collection_row (probe_standard c normalized)
                (name c normalized) (symbol c normalized)
                (owner c normalized) (contractURI c normalized) md
                (clock w)) in Hok.
  assert (Hl1 : artifact_collection w' !! normalized
                = Some (upserted_collection normalized row
                          (artifact_collection w))).
  { rewrite <- Hok. apply lookup_insert_eq. }
  eexists. split; [exact Hl1|].
  destruct (upserted_collection_fields normalized row (artifact_collection w))
    as (_ & Fn & Fs & Fo & Fc & Fd & Fi & Fdata & _).
  rewrite Fo, Fc. split; [reflexivity|]. split; [reflexivity|].
  intros Ht.
  rewrite (updateCollection_calls_without_uri host config address Ht),
    upsert_collection_run in Hok'.
  cbv zeta in Hok'. fold normalized in Hok'. fold c in Hok'.
  replace (store_fails (add_trace
                          ([ReadContract normalized "name" [];
                            ReadContract normalized "symbol" [];
                            ReadContract normalized "owner" [];
                            ReadContract normalized "contractURI" []]
                           ++ probe_events c normalized) w))
    with false in Hok' by (symmetry; exact Hf).
  apply (f_equal snd) in Hok'. cbn [snd] in Hok'.
  set (row0 := collection_row (probe_standard c normalized)
                 (name c normalized) (symbol c normalized)
                 (owner c normalized) (contractURI c normalized)
                 no_collection_metadata (clock w)) in Hok'.
  assert (Hl2 : artifact_collection w' !! normalized
                = Some (upserted_collection normalized row0
                          (artifact_collection w))).
  { rewrite <- Hok'. apply lookup_insert_eq. }
  rewrite Hl1 in Hl2. injection Hl2 as Hsame.
  destruct (upserted_collection_fields normalized row0
              (artifact_collection w))
    as (_ & Gn & Gs & _ & _ & Gd & Gi & Gdata & _).
  rewrite Hsame, Gn, Gs, Gd, Gi, Gdata.
  do 3 (split; [reflexivity|]).
  split; [cbn; destruct (name c normalized); reflexivity|].
  split; [cbn; destruct (symbol c normalized); reflexivity|].
  rewrite <- Hok'. simpl trace. rewrite <- !app_assoc, drop_app_length.
  reflexivity.
Qed.

Lemma updateCollection_stores_owner_and_chain_fields_witness :
  exists w' r,
    updateCollection offline_host (default_config owned_client) "0xABC"
      (empty_world 1700000000123 [])
    = (Ok tt, w')
    /\ artifact_collection w' !! "0xabc" = Some r
    /\ Collection.owner r = Some "0xdef"
    /\ Collection.name r = Some (Json.Str "Chain").
Proof.
  destruct (updateCollection_outcome offline_host
              (default_config owned_client) "0xABC") as (md & ev & Hrun).
  pose proof (Hrun (empty_world 1700000000123 [])) as E.
  cbv zeta in E. change (store_fails (empty_world 1700000000123 []))
    with false in E. cbv iota in E.
  destruct (updateCollection_stores_owner_and_chain_fields _ _ _ _ _ E)
    as (r & Hr & Ho & _ & Hno).
  destruct (Hno eq_refl) as (_ & _ & _ & Hname & _).
  eexists _, r. split; [exact E|]. repeat split; assumption.
Defined.

(** ** Base64 *)

Example base64_encode_example : base64_encode document_a1 = "eyJhIjoxfQ==".
Proof. reflexivity. Qed.

(** Induction on a string, three characters at a time. *)
Lemma string_triple_ind (P : string -> Prop) :
  P "" ->
  (forall a, P (String a "")) ->
  (forall a b, P (String a (String b ""))) ->
  (forall a b c rest, P rest -> P (String a (String b (String c rest)))) ->
  forall s, P s.
Proof.
  intros H0 H1 H2 H3.
  assert (H : forall s, P s /\ (forall a, P (String a s))
                        /\ (forall a b, P (String a (String b s)))).
  { induction s as [|c s (IH0 & IH1 & IH2)].
    - repeat split; auto.
    - split; [apply IH1|]. split; [intros a; apply IH2|].
      intros a b. apply H3, IH0. }
  intros s. apply H.
Qed.

Lemma char_code_range (c : ascii) : 0 <= char_code c < 256.
Proof.
  unfold char_code. pose proof (nat_ascii_bounded c). lia.
Qed.

Lemma byte_char_code (c : ascii) (n : Z) :
  n mod 256 = char_code c -> Js.byte_char n = c.
Proof.
  intros H. unfold Js.byte_char. rewrite H. unfold char_code.
  rewrite Nat2Z.id. apply ascii_nat_embedding.
Qed.

Lemma base64_char_facts (v : Z) :
  0 <= v < 64 ->
  Js.base64_value (base64_char v) = Some v
  /\ Js.is_ascii_whitespace (base64_char v) = false
  /\ Js.is_equals (base64_char v) = false
  /\ Ascii.eqb "," (base64_char v) = false.
Proof.
  intros H.
  assert (E : exists k : nat, (k < 64)%nat /\ v = Z.of_nat k)
    by (exists (Z.to_nat v); lia).
  destruct E as (k & Hk & ->).
  do 64 (destruct k as [|k]; [repeat split|]). lia.
Qed.

Lemma sextets_range (s : string) : Forall (fun v => 0 <= v < 64) (sextets s).
Proof.
  induction s as [|a|a b|a b c rest IH] using string_triple_ind;
    cbn [sextets];
    try pose proof (char_code_range a); try pose proof (char_code_range b);
    try pose proof (char_code_range c).
  - constructor.
  - repeat constructor; Z.div_mod_to_equations; lia.
  - repeat constructor; Z.div_mod_to_equations; lia.
  - repeat (constructor; [Z.div_mod_to_equations; lia|]). exact IH.
Qed.

Lemma decode_sextets_sextets (s : string) : Js.decode_sextets (sextets s) = s.
Proof.
  induction s as [|a|a b|a b c rest IH] using string_triple_ind;
    cbn [sextets Js.decode_sextets];
    try pose proof (char_code_range a); try pose proof (char_code_range b);
    try pose proof (char_code_range c).
  - reflexivity.
  - f_equal. apply byte_char_code. Z.div_mod_to_equations; lia.
  - f_equal; [|f_equal]; apply byte_char_code; Z.div_mod_to_equations; lia.
  - assert (Hn : (char_code a * 65536 + char_code b * 256 + char_code c)
                 / 262144 * 262144
                 + (char_code a * 65536 + char_code b * 256 + char_code c)
                   / 4096 mod 64 * 4096
                 + (char_code a * 65536 + char_code b * 256 + char_code c)
                   / 64 mod 64 * 64
                 + (char_code a * 65536 + char_code b * 256 + char_code c)
                   mod 64
                 = char_code a * 65536 + char_code b * 256 + char_code c)
      by (Z.div_mod_to_equations; lia).
    destruct (sextets rest) as [|x l] eqn:E; rewrite Hn;
      (f_equal; [|f_equal; [|f_equal]];
       [apply byte_char_code; Z.div_mod_to_equations; lia ..|]).
    + rewrite <- IH. reflexivity.
    + rewrite <- IH. reflexivity.
Qed.

Lemma base64_values_chars (l : list Z) :
  Forall (fun v => 0 <= v < 64) l ->
  Js.base64_values (map base64_char l) = Some l.
Proof.
  induction 1 as [|v l Hv Hl IH]; [reflexivity|].
  cbn [map Js.base64_values].
  destruct (base64_char_facts v Hv) as (-> & _). rewrite IH. reflexivity.
Qed.

Lemma remove_whitespace_chars (l : list ascii) :
  Forall (fun c => Js.is_ascii_whitespace c = false) l ->
  Js.remove_whitespace (string_of_chars l) = l.
Proof.
  induction 1 as [|c l Hc Hl IH]; [reflexivity|].
  cbn [string_of_chars Js.remove_whitespace]. rewrite Hc, IH. reflexivity.
Qed.

Lemma encode_shape (s : string) :
  let body := map base64_char (sextets s) in
  (base64_padding s = [] /\ exists k, length body = (k * 4)%nat)
  \/ (base64_padding s = ["="%char; "="%char]
      /\ exists k, length body = (2 + k * 4)%nat)
  \/ (base64_padding s = ["="%char]
      /\ exists k, length body = (3 + k * 4)%nat).
Proof.
  induction s as [|a|a b|a b c rest IH] using string_triple_ind.
  - left. split; [reflexivity|]. exists 0%nat. reflexivity.
  - right. left. split; [reflexivity|]. exists 0%nat. reflexivity.
  - right. right. split; [reflexivity|]. exists 0%nat. reflexivity.
  - cbn [sextets base64_padding map length] in *.
    destruct IH as [(Hp & k & Hk)|[(Hp & k & Hk)|(Hp & k & Hk)]];
      [left|right; left|right; right];
      (split; [exact Hp|]); exists (S k); rewrite Hk; simpl; lia.
Qed.

(** The digits carry no [=], no blank and no comma. *)
Lemma body_chars (s : string) :
  Forall (fun c => Js.is_ascii_whitespace c = false
                   /\ Js.is_equals c = false /\ Ascii.eqb "," c = false)
    (map base64_char (sextets s)).
Proof.
  apply Forall_map. eapply Forall_impl; [apply sextets_range|].
  intros v Hv. apply (base64_char_facts v Hv).
Qed.

Lemma strip_padding_encode (s : string) :
  let body := map base64_char (sextets s) in
  Js.strip_padding (body ++ base64_padding s) = body
  /\ (length body mod 4 =? 1)%nat = false.
Proof.
  intros body.
  pose proof (body_chars s) as Hchars. fold body in Hchars.
  assert (Hrev : forall a r, rev body = a :: r -> Js.is_equals a = false).
  { intros a r E.
    assert (Hin : In a body) by (apply in_rev; rewrite E; left; reflexivity).
    rewrite Forall_forall in Hchars.
    apply list_elem_of_In, Hchars in Hin. apply Hin. }
  destruct (encode_shape s) as [(Hp & k & Hk)|[(Hp & k & Hk)|(Hp & k & Hk)]];
    fold body in Hk; rewrite Hp.
  - rewrite app_nil_r. split.
    + unfold Js.strip_padding. rewrite Hk, Nat.Div0.mod_mul. cbn [Nat.eqb].
      destruct (rev body) as [|a [|b r]]; [reflexivity| |];
        rewrite (Hrev _ _ eq_refl); reflexivity.
    + rewrite Hk, Nat.Div0.mod_mul. reflexivity.
  - split.
    + unfold Js.strip_padding.
      rewrite length_app, Hk.
      replace (2 + k * 4 + length ["="%char; "="%char])%nat
        with ((S k) * 4)%nat by (simpl; lia).
      rewrite Nat.Div0.mod_mul. cbn [Nat.eqb].
      rewrite rev_app_distr. cbn [rev app Js.is_equals].
      change (Ascii.eqb "=" "=") with true. cbv iota.
      apply rev_involutive.
    + rewrite Hk, Nat.Div0.mod_add. reflexivity.
  - split.
    + unfold Js.strip_padding.
      rewrite length_app, Hk.
      replace (3 + k * 4 + length ["="%char])%nat
        with ((S k) * 4)%nat by (simpl; lia).
      rewrite Nat.Div0.mod_mul. cbn [Nat.eqb].
      rewrite rev_app_distr. cbn [rev app].
      destruct (rev body) as [|b r] eqn:E.
      * apply (f_equal (@length ascii)) in E. rewrite length_rev, Hk in E.
        discriminate E.
      * cbn [Js.is_equals]. change (Ascii.eqb "=" "=") with true. cbv iota.
        change (Ascii.eqb b "=") with (Js.is_equals b).
        rewrite (Hrev _ _ eq_refl).
        rewrite <- (rev_involutive body), E. reflexivity.
    + rewrite Hk, Nat.Div0.mod_add. reflexivity.
Qed.

(** [atob] undoes the encoding, for every string of bytes. *)
Lemma atob_base64_encode (s : string) : Js.atob (base64_encode s) = Some s.
Proof.
  unfold Js.atob, base64_encode.
  assert (Hws : Forall (fun c => Js.is_ascii_whitespace c = false)
                  (map base64_char (sextets s) ++ base64_padding s)).
  { apply Forall_app. split.
    - eapply Forall_impl; [apply body_chars|]. intros c Hc. apply Hc.
    - destruct (encode_shape s) as [(-> & _)|[(-> & _)|(-> & _)]];
        repeat constructor. }
  rewrite (remove_whitespace_chars _ Hws).
  destruct (strip_padding_encode s) as (-> & ->).
  rewrite (base64_values_chars _ (sextets_range s)).
  rewrite decode_sextets_sextets. reflexivity.
Qed.

(** ** Splitting at commas *)

Lemma includes_comma_cons (c : ascii) (s : string) :
  Js.includes (String c s) "," = false ->
  Ascii.eqb c "," = false /\ Js.includes s "," = false.
Proof.
  intros H. apply includes_cons_false in H. destruct H as [Hs Hi].
  split; [|exact Hi]. cbn [Js.startsWith] in Hs.
  rewrite Ascii.eqb_sym. destruct (Ascii.eqb "," c); [discriminate Hs|reflexivity].
Qed.

Lemma split_without_comma (s : string) :
  Js.includes s "," = false -> Js.split "," s = [s].
Proof.
  induction s as [|c s IH]; intros H; [reflexivity|].
  apply includes_comma_cons in H. destruct H as [Hc Hs].
  cbn [Js.split]. rewrite Hc, (IH Hs). reflexivity.
Qed.

Lemma split_at_first_comma (p q : string) :
  Js.includes p "," = false ->
  Js.split "," (p ++ String "," q) = p :: Js.split "," q.
Proof.
  induction p as [|c p IH]; intros H.
  - reflexivity.
  - apply includes_comma_cons in H. destruct H as [Hc Hp].
    cbn [String.append Js.split]. rewrite Hc, (IH Hp). reflexivity.
Qed.

Lemma includes_comma_chars (l : list ascii) :
  Forall (fun c => Ascii.eqb "," c = false) l ->
  Js.includes (string_of_chars l) "," = false.
Proof.
  induction 1 as [|c l Hc Hl IH]; [reflexivity|].
  cbn [string_of_chars Js.includes Js.startsWith]. rewrite Hc. exact IH.
Qed.

Lemma base64_encode_no_comma (s : string) :
  Js.includes (base64_encode s) "," = false.
Proof.
  unfold base64_encode. apply includes_comma_chars, Forall_app. split.
  - eapply Forall_impl; [apply body_chars|]. intros c Hc. apply Hc.
  - destruct (encode_shape s) as [(-> & _)|[(-> & _)|(-> & _)]];
      repeat constructor.
Qed.

Lemma startsWith_common_prefix (p s q : string) :
  Js.startsWith (p ++ s) (p ++ q) = Js.startsWith s q.
Proof.
  induction p as [|c p IH]; [reflexivity|].
  cbn [String.append Js.startsWith]. rewrite Ascii.eqb_refl. exact IH.
Qed.

(** A pattern without comma that does not begin [p] does not begin [p]
    followed by a comma either. *)
Lemma startsWith_before_comma (pat p rest : string) :
  Js.includes pat "," = false ->
  Js.startsWith p pat = false ->
  Js.startsWith (p ++ String "," rest) pat = false.
Proof.
  revert p. induction pat as [|c pat IH]; intros p Hpat H.
  - discriminate H.
  - apply includes_comma_cons in Hpat. destruct Hpat as [Hc Hpat].
    destruct p as [|d p]; cbn [String.append Js.startsWith] in *.
    + rewrite Hc. reflexivity.
    + destruct (Ascii.eqb c d); [apply IH; assumption|reflexivity].
Qed.

Lemma resolveUri_data (u : string) options :
  Js.startsWith u "data:" = true -> Uri.resolveUri (Some u) options = u.
Proof.
  intros H. unfold Uri.resolveUri. destruct u; [reflexivity|].
  rewrite H. reflexivity.
Qed.

(** ** Inline documents that are decoded whole *)

(** X12.  A data URI made of the prefix for base64 JSON and the base64
    encoding of any text gives that text to the parser, and the result of
    the parser is the result of [fetchJson]; no request is made. *)
Theorem fetchJson_decodes_base64
    (host : Host) (options : option Uri.ResolveUriOptions)
    (text : string) (w : World) :
  Uri.fetchJson host ("data:application/json;base64," ++ base64_encode text)
    options w
  = (match JSON_parse host text with
     | Some v => Ok v
     | None => Throw SyntaxError
     end, w).
Proof.
  pose proof (atob_base64_encode text) as Ha.
  pose proof (split_without_comma _ (base64_encode_no_comma text)) as Hs.
  remember (base64_encode text) as payload eqn:Hp. clear Hp.
  unfold Uri.fetchJson.
  rewrite resolveUri_data by reflexivity.
  change (Js.startsWith ("data:application/json;base64," ++ payload)
            "data:application/json;base64,") with true.
  cbv iota zeta.
  change ("data:application/json;base64," ++ payload)
    with ("data:application/json;base64" ++ String "," payload).
  rewrite (split_at_first_comma "data:application/json;base64" payload
             eq_refl), Hs.
  change (Js.index_to_string ["data:application/json;base64"; payload] 1)
    with payload.
  unfold bind. rewrite Ha. cbn [or_throw ret].
  destruct (JSON_parse host text); reflexivity.
Qed.

(** X13.  A data URI with the media type of JSON, any parameters other
    than the base64 one, and a payload, neither of which holds a comma,
    gives the whole payload to [decodeURIComponent] and what it returns to
    the parser; no request is made. *)
Theorem fetchJson_decodes_payload_without_comma
    (host : Host) (options : option Uri.ResolveUriOptions)
    (params payload : string) (w : World)
    (Hparams : Js.includes params "," = false)
    (Hpayload : Js.includes payload "," = false)
    (Hplain : Js.startsWith params ";base64" = false) :
  Uri.fetchJson host
    ("data:application/json" ++ params ++ String "," payload) options w
  = (match decodeURIComponent host payload with
     | Some jsonStr =>
         match JSON_parse host jsonStr with
         | Some v => Ok v
         | None => Throw SyntaxError
         end
     | None => Throw URIError
     end, w).
Proof.
  unfold Uri.fetchJson.
  rewrite resolveUri_data by reflexivity.
  assert (Hb : Js.startsWith
                 ("data:application/json" ++ params ++ String "," payload)
                 "data:application/json;base64," = false).
  { change "data:application/json;base64,"
      with ("data:application/json" ++ ";base64,").
    rewrite startsWith_common_prefix.
    destruct (Js.startsWith (params ++ String "," payload) ";base64,")
      eqn:E; [|reflexivity].
    apply (startsWith_longer _ ";base64" ",") in E.
    rewrite (startsWith_before_comma ";base64" params payload eq_refl Hplain)
      in E.
    discriminate E. }
  rewrite Hb.
  change (Js.startsWith
            ("data:application/json" ++ params ++ String "," payload)
            "data:application/json") with true.
  cbv iota.
  assert (Hp : Js.includes ("data:application/json" ++ params) "," = false).
  { cbn [String.append Js.includes Js.startsWith].
    repeat match goal with
           | |- context [Ascii.eqb "," ?a] =>
               change (Ascii.eqb "," a) with false; cbv iota
           end.
    exact Hparams. }
  rewrite <- string_app_assoc in *.
  rewrite (split_at_first_comma _ payload Hp),
    (split_without_comma _ Hpayload).
  change (Js.index_to_string ["data:application/json" ++ params; payload] 1)
    with payload.
  unfold bind. destruct (decodeURIComponent host payload) as [d|];
    [|reflexivity].
  cbn [or_throw ret]. destruct (JSON_parse host d); reflexivity.
Qed.

Lemma fetchJson_decodes_payload_without_comma_witness :
  Uri.fetchJson offline_host
    "data:application/json;charset=utf-8,%7B%22a%22%3A1%7D" None
    (empty_world 0 [])
  = (Throw SyntaxError, empty_world 0 []).
Proof.
  exact (fetchJson_decodes_payload_without_comma offline_host None
           ";charset=utf-8" "%7B%22a%22%3A1%7D" (empty_world 0 [])
           eq_refl eq_refl eq_refl).
Defined.

(** ** Documents behind a gateway *)

Lemma startsWith_split (s p : string) :
  Js.startsWith s p = true -> s = p ++ Js.slice (String.length p) s.
Proof.
  revert s. induction p as [|c p IH]; intros s H; [reflexivity|].
  cbn [Js.startsWith] in H.
  destruct s as [|d s]; [discriminate H|].
  destruct (Ascii.eqb_spec c d) as [->|]; [|discriminate H].
  cbn [String.length Js.slice String.append]. f_equal. apply IH, H.
Qed.

Lemma resolveUri_http (x : string) options :
  Uri.resolveUri (Some ("http" ++ x)) options = "http" ++ x.
Proof. reflexivity. Qed.

Lemma http_not_inline (x : string) :
  Js.startsWith ("http" ++ x) "data:application/json" = false
  /\ Js.startsWith ("http" ++ x) "data:application/json;base64," = false.
Proof. split; reflexivity. Qed.

(** X14.  With an IPFS gateway that begins with http (as the default
    does), an [ipfs://] URI is fetched with one request to the gateway
    followed by what comes after the scheme.  A rejected request throws, a
    response that is not a success throws an error carrying that address
    and the status, and a success gives the parsed body, or throws when
    the body is not JSON. *)
Theorem fetchJson_fetches_ipfs_from_gateway
    (host : Host) (options : option Uri.ResolveUriOptions)
    (rest : string) (w : World)
    (Hgateway : Js.startsWith (Uri.ipfs_of options) "http" = true) :
  let url := Uri.ipfs_of options ++ rest in
  Uri.fetchJson host ("ipfs://" ++ rest) options w
  = (match fetch host url with
     | None => Throw TypeError
     | Some response =>
         if ok response
         then match json response with
              | Some v => Ok v
              | None => Throw SyntaxError
              end
         else Throw (FetchFailed url (status response))
     end, add_trace [HttpGet url] w).
Proof.
  intros url.
  assert (Hres : Uri.resolveUri (Some ("ipfs://" ++ rest)) options = url)
    by reflexivity.
  unfold Uri.fetchJson. rewrite Hres.
  assert (Hurl : exists x, url = "http" ++ x).
  { unfold url. rewrite (startsWith_split _ _ Hgateway).
    rewrite string_app_assoc. eexists. reflexivity. }
  destruct Hurl as (x & Hx).
  destruct (http_not_inline x) as (H1 & H2). rewrite <- Hx in H1, H2.
  rewrite H2, H1.
  unfold bind, Uri.do_fetch, bind, emit.
  destruct (fetch host url) as [resp|]; [|reflexivity].
  cbn [or_throw ret]. destruct (ok resp); [|reflexivity].
  cbn [negb]. destruct (json resp); reflexivity.
Qed.

Lemma fetchJson_fetches_ipfs_from_gateway_witness :
  Uri.fetchJson (serving_host sample_document) "ipfs://abc" None
    (empty_world 0 [])
  = (Ok sample_document,
     add_trace [HttpGet "https://ipfs.io/ipfs/abc"] (empty_world 0 [])).
Proof.
  exact (fetchJson_fetches_ipfs_from_gateway (serving_host sample_document)
           None "abc" (empty_world 0 []) eq_refl).
Defined.

(** X15.  With gateways that begin with http (as the defaults do), a
    resolved URI resolves to itself: resolving twice never adds a second
    gateway. *)
Theorem resolveUri_idempotent
    (uri : option string) (options : option Uri.ResolveUriOptions)
    (Hipfs : Js.startsWith (Uri.ipfs_of options) "http" = true)
    (Har : Js.startsWith (Uri.ar_of options) "http" = true) :
  Uri.resolveUri (Some (Uri.resolveUri uri options)) options
  = Uri.resolveUri uri options.
Proof.
  assert (Hg : forall g y, Js.startsWith g "http" = true ->
               Uri.resolveUri (Some (g ++ y)) options = g ++ y).
  { intros g y H. rewrite (startsWith_split _ _ H), string_app_assoc.
    apply resolveUri_http. }
  destruct uri as [[|c u]|]; [reflexivity| |reflexivity].
  remember (Uri.resolveUri (Some (String c u)) options) as r eqn:Hr.
  unfold Uri.resolveUri in Hr.
  destruct (Js.startsWith (String c u) "data:") eqn:E1.
  { subst r. apply resolveUri_data, E1. }
  destruct (Js.startsWith (String c u) "ipfs://") eqn:E2.
  { subst r. apply Hg, Hipfs. }
  destruct (Js.startsWith (String c u) "ar://") eqn:E3.
  { subst r. apply Hg, Har. }
  destruct (Js.startsWith (String c u) "Qm" || Js.startsWith (String c u) "baf")
    eqn:E4.
  { subst r. apply Hg, Hipfs. }
  subst r. unfold Uri.resolveUri. rewrite E1, E2, E3, E4. reflexivity.
Qed.

Lemma resolveUri_idempotent_witness :
  Uri.resolveUri (Some (Uri.resolveUri (Some "Qm123") None)) None
  = "https://ipfs.io/ipfs/Qm123".
Proof.
  exact (resolveUri_idempotent (Some "Qm123") None eq_refl eq_refl).
Defined.

(** ** The choice of the store *)

(** X16.  [createOffchainDb] takes the first of the option [databaseUrl],
    the variable DATABASE_PRIVATE_URL and the variable DATABASE_URL that
    is defined, and connects to PostgreSQL exactly when that one is not
    empty.  So an option or a private URL that is set to the empty string
    hides the variables after it, and PGlite is opened, in the directory of
    the option [dataDir] when it is given and in [.ponder/artifacts]
    otherwise. *)
Theorem createOffchainDb_backend_choice
    (options : option Db.Options) (env : Db.ProcessEnv) :
  let option_url := o ← options; Db.databaseUrl o in
  let directory := default ".ponder/artifacts" (o ← options; Db.dataDir o) in
  (forall u, option_url = Some u ->
     Db.createOffchainDb_backend options env
     = if String.eqb u "" then Db.PGlite directory else Db.NodePostgres u)
  /\ (forall u, option_url = None -> Db.DATABASE_PRIVATE_URL env = Some u ->
      Db.createOffchainDb_backend options env
      = if String.eqb u "" then Db.PGlite directory else Db.NodePostgres u)
  /\ (forall u, option_url = None -> Db.DATABASE_PRIVATE_URL env = None ->
      Db.DATABASE_URL env = Some u ->
      Db.createOffchainDb_backend options env
      = if String.eqb u "" then Db.PGlite directory else Db.NodePostgres u)
  /\ (option_url = None -> Db.DATABASE_PRIVATE_URL env = None ->
      Db.DATABASE_URL env = None ->
      Db.createOffchainDb_backend options env = Db.PGlite directory).
Proof.
  intros option_url directory. unfold Db.createOffchainDb_backend.
  fold option_url. fold directory.
  repeat split.
  - intros u ->. destruct u; reflexivity.
  - intros u -> ->. destruct u; reflexivity.
  - intros u -> -> ->. destruct u; reflexivity.
  - intros -> -> ->. reflexivity.
Qed.

Lemma createOffchainDb_backend_choice_witness :
  Db.createOffchainDb_backend
    (Some {| Db.databaseUrl := Some ""; Db.dataDir := None |})
    {| Db.DATABASE_PRIVATE_URL := None;
       Db.DATABASE_URL := Some "postgres://db" |}
  = Db.PGlite ".ponder/artifacts".
Proof.
  exact (proj1 (createOffchainDb_backend_choice
                  (Some {| Db.databaseUrl := Some ""; Db.dataDir := None |})
                  {| Db.DATABASE_PRIVATE_URL := None;
                     Db.DATABASE_URL := Some "postgres://db" |})
           "" eq_refl).
Defined.

(** ** Forced refreshes and first reads of a collection *)

Lemma get_collection_decision host config address :
  read_with_fallback (fetchCollection address)
    (collection_is_fresh config)
    (updateCollection host config address)
    (fun c => c_json (CollectionBody c)) collection_failure
    (get_collection host config address).
Proof.
  apply read_handler_decision;
    [apply collection_is_fresh_total | discriminate].
Qed.

(** X17.  A forced refresh of a token whose id [BigInt] accepts, against a
    store that answers, writes the record anew and answers with status 200
    and that record, stamped with the clock in seconds, whether or not a
    record, fresh or stale, was there before; the identity fields of a
    record that was there are kept. *)
Theorem post_token_rewrites_record
    (host : Host) (config : ArtifactPluginConfig)
    (collection tokenId : string) (n : Z) (w : World)
    (Hn : Js.BigInt tokenId = Some n)
    (Hhealthy : db_faults w = []) :
  exists r w',
    post_token host config collection tokenId w
    = (Ok (c_json (TokenBody (Some r))), w')
    /\ artifact_token w' !! (Js.toLowerCase collection, tokenId) = Some r
    /\ Token.updatedAt r = clock w / 1000
    /\ Token.tokenStandard r
       = probe_standard (client config) (Js.toLowerCase collection)
    /\ (forall stored,
          artifact_token w !! (Js.toLowerCase collection, tokenId)
          = Some stored ->
          Token.collection r = Token.collection stored
          /\ Token.tokenId r = Token.tokenId stored).
Proof.
  destruct (updateToken_outcome host config collection tokenId n Hn)
    as (ru & tu & rm & tm & events & _ & _ & Hrun).
  pose proof (Hrun w) as Hupd. cbv zeta in Hupd.
  rewrite (healthy_store_fails w Hhealthy) in Hupd.
  match type of Hupd with
  | _ = (_, ?x) => set (w1 := x) in *
  end.
  assert (H1 : store_fails w1 = false).
  { apply healthy_store_fails. unfold w1. simpl. rewrite Hhealthy.
    reflexivity. }
  pose proof (fetchToken_run collection tokenId w1) as Hread.
  cbv zeta in Hread. rewrite H1 in Hread.
  destruct (post_token_decision host config collection tokenId w _ _ Hupd)
    as (Hok & _).
  specialize (Hok _ _ Hread).
  assert (Hlook : artifact_token w1 !! (Js.toLowerCase collection, tokenId)
                  = Some (upserted_token (Js.toLowerCase collection) tokenId
                            (token_row
                               (probe_standard (client config)
                                  (Js.toLowerCase collection))
                               (kept_uri ru)
                               (kept_metadata (kept_uri ru) rm) (clock w))
                            (artifact_token w))).
  { unfold w1. cbn [artifact_token with_artifact_token].
    apply lookup_insert_eq. }
  rewrite Hlook in Hok.
  eexists _, _. split; [exact Hok|].
  split; [exact Hlook|].
  match goal with
  | |- context [upserted_token ?a ?t ?row ?tbl] =>
      destruct (upserted_token_fields a t row tbl)
        as (Fs & _ & _ & _ & _ & _ & _ & Ft)
  end.
  rewrite Fs, Ft. split; [reflexivity|]. split; [reflexivity|].
  intros stored Hs. unfold upserted_token. rewrite Hs. split; reflexivity.
Qed.

Lemma post_token_rewrites_record_witness :
  exists r w',
    post_token offline_host (default_config offline_client) "0xabc" "42"
      (stale_world [])
    = (Ok (c_json (TokenBody (Some r))), w')
    /\ Token.updatedAt r = 1700000000
    /\ Token.tokenStandard r = unknown.
Proof.
  destruct (post_token_rewrites_record offline_host
              (default_config offline_client) "0xabc" "42" 42
              (stale_world []) eq_refl eq_refl)
    as (r & w' & Hpost & _ & Ht & Hs & _).
  exists r, w'. repeat split; assumption.
Defined.

(** X18.  A read of a collection the store does not hold, against a store
    that answers, refreshes it and answers with status 200 and the record
    just written, keyed by the address in lower case and stamped with the
    clock in seconds, whatever the chain and the network answered. *)
Theorem get_collection_populates_cache
    (host : Host) (config : ArtifactPluginConfig) (address : string)
    (w : World)
    (Hhealthy : db_faults w = [])
    (Habsent : artifact_collection w !! Js.toLowerCase address = None) :
  exists r w',
    get_collection host config address w
    = (Ok (c_json (CollectionBody (Some r))), w')
    /\ artifact_collection w' !! Js.toLowerCase address = Some r
    /\ Collection.collection r = Js.toLowerCase address
    /\ Collection.updatedAt r = clock w / 1000.
Proof.
  set (w1 := statement_sent
               (Select "artifact_collection" [Js.toLowerCase address]) w).
  assert (Hread : fetchCollection address w = (Ok None, w1)).
  { rewrite fetchCollection_run, (healthy_store_fails w Hhealthy). cbv zeta.
    rewrite Habsent. reflexivity. }
  assert (H1 : db_faults w1 = []) by (apply statement_sent_healthy, Hhealthy).
  destruct (updateCollection_outcome host config address)
    as (md & events & Hrun).
  pose proof (Hrun w1) as Hupd. cbv zeta in Hupd.
  rewrite (healthy_store_fails w1 H1) in Hupd.
  match type of Hupd with
  | _ = (_, ?x) => set (w2 := x) in *
  end.
  assert (H2 : store_fails w2 = false).
  { apply healthy_store_fails. unfold w2. simpl. rewrite Hhealthy.
    reflexivity. }
  pose proof (fetchCollection_run address w2) as Hread2.
  cbv zeta in Hread2. rewrite H2 in Hread2.
  destruct (get_collection_decision host config address w None w1 Hread)
    as (_ & Hstale & _).
  specialize (Hstale eq_refl _ _ Hupd). cbv iota in Hstale.
  specialize (Hstale _ _ Hread2). cbv iota beta in Hstale.
  assert (Hlook : artifact_collection w2 !! Js.toLowerCase address
                  = Some (Collection.values (Js.toLowerCase address)
                            (collection_row
                               (probe_standard (client config)
                                  (Js.toLowerCase address))
                               (name (client config) (Js.toLowerCase address))
                               (symbol (client config)
                                  (Js.toLowerCase address))
                               (owner (client config) (Js.toLowerCase address))
                               (contractURI (client config)
                                  (Js.toLowerCase address))
                               md (clock w)))).
  { unfold w2. cbn [artifact_collection with_artifact_collection
                    statement_sent add_trace clock].
    rewrite lookup_insert_eq.
    unfold upserted_collection, w1.
    cbn [artifact_collection statement_sent add_trace].
    rewrite Habsent. reflexivity. }
  rewrite Hlook in Hstale.
  eexists _, _. split; [exact Hstale|].
  split; [exact Hlook|]. split; reflexivity.
Qed.

Lemma get_collection_populates_cache_witness :
  exists r w',
    get_collection offline_host (default_config owned_client) "0xABC"
      (empty_world 1700000000123 [])
    = (Ok (c_json (CollectionBody (Some r))), w')
    /\ Collection.collection r = "0xabc".
Proof.
  destruct (get_collection_populates_cache offline_host
              (default_config owned_client) "0xABC"
              (empty_world 1700000000123 []) eq_refl eq_refl)
    as (r & w' & Hget & _ & Hc & _).
  exists r, w'. split; [exact Hget|exact Hc].
Defined.

(** ** An ERC1155 URI without placeholder *)

(** X19.  For an ERC1155 token, a string returned by [uri] that holds no
    [{id}] is the token URI as it is. *)
Theorem fetchTokenUri_erc1155_without_placeholder
    (config : ArtifactPluginConfig) (address : string) (tokenId : Z)
    (u : string) (w : World)
    (Huri : uri (client config) address tokenId = Some u)
    (Hnone : Js.includes u "{id}" = false) :
  fetchTokenUri config address tokenId erc1155 w
  = (Ok u, add_trace [ReadContract address "uri" [Js.toString16 tokenId]] w).
Proof.
  rewrite (fetchTokenUri_settles config address tokenId erc1155 w).
  unfold token_uri_result, uri_read. rewrite Huri.
  rewrite replace_absent by exact Hnone. reflexivity.
Qed.

Lemma fetchTokenUri_erc1155_without_placeholder_witness :
  fetchTokenUri (default_config (erc1155_client "https://x/meta.json"))
    "0xabc" 255 erc1155 (empty_world 0 [])
  = (Ok "https://x/meta.json",
     add_trace [ReadContract "0xabc" "uri" ["ff"]] (empty_world 0 [])).
Proof.
  exact (fetchTokenUri_erc1155_without_placeholder
           (default_config (erc1155_client "https://x/meta.json"))
           "0xabc" 255 "https://x/meta.json" (empty_world 0 [])
           eq_refl eq_refl).
Defined.
